(** * Mini blockchain with proof of work: blocks, mining and chain validation

    A shallow embedding of [miner_demo.py]: the [Block] class (header
    serialisation, hashing, the mining loop), the [Blockchain] class
    (genesis, [add_block], [is_valid]) and the payload mutation of the
    interactive menu, with the properties of the specification stated
    and proved over them. *)

From Stdlib Require Import ZArith List String Ascii Bool Lia DecimalString.
From Stdlib Require DecimalPos DecimalZ.
From Stdlib Require Import Permutation Sorted.
Import ListNotations.
Open Scope Z_scope.

(** ** Python strings

    A Python [str] is modelled as a Rocq [string]; every [ascii] stands
    for the Unicode code point of the same number (U+0000 to U+00FF). *)

Definition code_point (c : ascii) : Z := Z.of_N (N_of_ascii c).

Definition chr (n : Z) : ascii := ascii_of_N (Z.to_N n).

(** [s.startswith(p)] *)
Fixpoint startswith (s p : string) {struct p} : bool :=
  match p with
  | EmptyString => true
  | String c p' =>
      match s with
      | EmptyString => false
      | String c' s' => Ascii.eqb c' c && startswith s' p'
      end
  end.

(** [c * n] for a one-character string [c]; the empty string when
    [n <= 0], as in Python. *)
Definition str_repeat (c : ascii) (n : Z) : string :=
  Nat.iter (Z.to_nat n) (String c) EmptyString.

(** [str(n)] for a Python integer. *)
Definition str_of_int (n : Z) : string := NilZero.string_of_int (Z.to_int n).

(** ** SHA-256 (FIPS 180-4), the model of [hashlib.sha256] *)

Module Sha256.

Definition wmask : Z := 4294967295.

Definition w32 (x : Z) : Z := Z.land x wmask.

Definition add32 (x y : Z) : Z := w32 (x + y).

Definition rotr (n x : Z) : Z :=
  w32 (Z.lor (Z.shiftr x n) (Z.shiftl x (32 - n))).

Definition shr (n x : Z) : Z := Z.shiftr x n.

Definition Ch (x y z : Z) : Z :=
  Z.lxor (Z.land x y) (Z.land (Z.lxor x wmask) z).

Definition Maj (x y z : Z) : Z :=
  Z.lxor (Z.lxor (Z.land x y) (Z.land x z)) (Z.land y z).

Definition Sigma0 (x : Z) : Z := Z.lxor (Z.lxor (rotr 2 x) (rotr 13 x)) (rotr 22 x).
Definition Sigma1 (x : Z) : Z := Z.lxor (Z.lxor (rotr 6 x) (rotr 11 x)) (rotr 25 x).
Definition sigma0 (x : Z) : Z := Z.lxor (Z.lxor (rotr 7 x) (rotr 18 x)) (shr 3 x).
Definition sigma1 (x : Z) : Z := Z.lxor (Z.lxor (rotr 17 x) (rotr 19 x)) (shr 10 x).

(** The constants are taken from the primes, as the standard defines
    them: the first 32 bits of the fractional parts of the cube roots
    (round constants) and of the square roots (initial state). *)
Definition is_prime (n : Z) : bool :=
  forallb (fun d => negb (n mod Z.of_nat d =? 0)) (seq 2 (Z.to_nat n - 2)).

Definition primes_upto (n : nat) : list Z :=
  filter is_prime (map Z.of_nat (seq 2 (n - 1))).

(** The largest [r] in [lo, lo + 2^bits) with [r^3 <= n], by bisection. *)
Fixpoint cube_root_from (bits : nat) (lo n : Z) : Z :=
  match bits with
  | O => lo
  | S bits' =>
      let mid := lo + Z.shiftl 1 (Z.of_nat bits') in
      if mid * mid * mid <=? n then cube_root_from bits' mid n
      else cube_root_from bits' lo n
  end.

Definition frac_cube_root (p : Z) : Z :=
  w32 (cube_root_from 36 0 (Z.shiftl p 96)).

Definition frac_square_root (p : Z) : Z :=
  w32 (Z.sqrt (Z.shiftl p 64)).

Definition K : list Z :=
  Eval vm_compute in map frac_cube_root (primes_upto 311).

Definition H0 : list Z :=
  Eval vm_compute in map frac_square_root (primes_upto 19).

(** Big-endian bytes of a [w]-byte number. *)
Fixpoint be_bytes (w : nat) (x : Z) : list Z :=
  match w with
  | O => []
  | S w' => Z.land (Z.shiftr x (8 * Z.of_nat w')) 255 :: be_bytes w' x
  end.

(** Padding: the bit 1, zeros up to 56 modulo 64, then the bit length on
    eight bytes. *)
Definition pad (msg : list Z) : list Z :=
  let len := Z.of_nat (List.length msg) in
  let zeros := Z.to_nat ((55 - len) mod 64) in
  msg ++ 128 :: repeat 0 zeros ++ be_bytes 8 (8 * len).

(** The sixteen big-endian words of a 64-byte block. *)
Fixpoint words (n : nat) (bs : list Z) : list Z :=
  match n with
  | O => []
  | S n' =>
      match bs with
      | b0 :: b1 :: b2 :: b3 :: rest =>
          (Z.shiftl b0 24 + Z.shiftl b1 16 + Z.shiftl b2 8 + b3) :: words n' rest
      | _ => []
      end
  end.

(** Message schedule: [w] holds the last sixteen words, oldest first. *)
Definition next_word (w : list Z) : Z :=
  add32 (add32 (sigma1 (nth 14 w 0)) (nth 9 w 0))
        (add32 (sigma0 (nth 1 w 0)) (nth 0 w 0)).

Fixpoint schedule (n : nat) (w : list Z) : list Z :=
  match n with
  | O => []
  | S n' =>
      match w with
      | [] => []
      | x :: tl => x :: schedule n' (tl ++ [next_word w])
      end
  end.

Record regs := mkRegs { ra : Z; rb : Z; rc : Z; rd : Z; re : Z; rf : Z; rg : Z; rh : Z }.

Definition round (r : regs) (kw : Z * Z) : regs :=
  let t1 := add32 (add32 (add32 (rh r) (Sigma1 (re r))) (Ch (re r) (rf r) (rg r)))
                  (add32 (fst kw) (snd kw)) in
  let t2 := add32 (Sigma0 (ra r)) (Maj (ra r) (rb r) (rc r)) in
  mkRegs (add32 t1 t2) (ra r) (rb r) (rc r) (add32 (rd r) t1) (re r) (rf r) (rg r).

Definition regs_of (h : list Z) : regs :=
  mkRegs (nth 0 h 0) (nth 1 h 0) (nth 2 h 0) (nth 3 h 0)
         (nth 4 h 0) (nth 5 h 0) (nth 6 h 0) (nth 7 h 0).

Definition compress (h : list Z) (block : list Z) : list Z :=
  let w := schedule 64 (words 16 block) in
  let r0 := regs_of h in
  let r := fold_left round (combine K w) r0 in
  [ add32 (ra r0) (ra r); add32 (rb r0) (rb r); add32 (rc r0) (rc r);
    add32 (rd r0) (rd r); add32 (re r0) (re r); add32 (rf r0) (rf r);
    add32 (rg r0) (rg r); add32 (rh r0) (rh r) ].

Fixpoint blocks (n : nat) (h : list Z) (bs : list Z) : list Z :=
  match n with
  | O => h
  | S n' => blocks n' (compress h (firstn 64 bs)) (skipn 64 bs)
  end.

Definition digest (msg : list Z) : list Z :=
  let p := pad msg in
  flat_map (be_bytes 4) (blocks (Nat.div (List.length p) 64) H0 p).

End Sha256.

(** ** Hexadecimal rendering and UTF-8 *)

Definition hex_digit (n : Z) : ascii :=
  if n <? 10 then chr (48 + n) else chr (87 + n).

(** [bytes.hex()]: two lowercase digits per byte. *)
Fixpoint hexdigest (bs : list Z) : string :=
  match bs with
  | [] => EmptyString
  | b :: tl => String (hex_digit (b / 16)) (String (hex_digit (b mod 16)) (hexdigest tl))
  end.

(** [s.encode("utf-8")] on code points below U+0100: one byte below
    U+0080, two bytes from there on. *)
Fixpoint utf8_encode (s : string) : list Z :=
  match s with
  | EmptyString => []
  | String c tl =>
      let n := code_point c in
      if n <? 128 then n :: utf8_encode tl
      else Z.lor 192 (Z.shiftr n 6) :: Z.lor 128 (Z.land n 63) :: utf8_encode tl
  end.

(** [sha256_hex], line 6. *)
Definition sha256_hex (s : string) : string :=
  hexdigest (Sha256.digest (utf8_encode s)).

(** ** JSON payloads, the model of [json.dumps]

    A float is represented by its [repr], the shortest text that reads
    back as the same float; the program never computes with floats, it
    only stores and prints them. *)

Record pyfloat := mkFloat { float_repr : string }.

(** [str(x)] for a float, as an f-string renders it. *)
Definition str_of_float (x : pyfloat) : string := float_repr x.

#[local] Set Warnings "-register-all".

Inductive json :=
| JNull
| JBool (b : bool)
| JInt (n : Z)
| JFloat (x : pyfloat)
| JStr (s : string)
| JList (l : list json)
| JDict (items : list (string * json)).

(** A dict with string keys, in insertion order. *)
Definition pydict := list (string * json).

Open Scope string_scope.

Fixpoint join (sep : string) (l : list string) : string :=
  match l with
  | [] => ""
  | [x] => x
  | x :: tl => x ++ sep ++ join sep tl
  end.

(** The four hexadecimal digits of [format(n, "04x")], for [n < 256]. *)
Definition hex4 (n : Z) : string :=
  String "0" (String "0" (String (hex_digit (n / 16)) (String (hex_digit (n mod 16)) ""))).

(** One character of [encode_basestring_ascii]: the short escapes, the
    printable ASCII range as it is, [\uXXXX] for everything else. *)
Definition escape_char (c : ascii) : string :=
  let n := code_point c in
  if (n =? 34)%Z then String "\" (String c "")
  else if (n =? 92)%Z then "\\"
  else if (n =? 10)%Z then "\n"
  else if (n =? 13)%Z then "\r"
  else if (n =? 9)%Z then "\t"
  else if (n =? 12)%Z then "\f"
  else if (n =? 8)%Z then "\b"
  else if ((32 <=? n) && (n <=? 126))%Z then String c ""
  else "\u" ++ hex4 n.

Fixpoint escape_body (s : string) : string :=
  match s with
  | EmptyString => ""
  | String c tl => escape_char c ++ escape_body tl
  end.

Definition quote : string := String (chr 34) "".

Definition encode_str (s : string) : string := quote ++ escape_body s ++ quote.

(** [float.__repr__], except for the three values JSON spells its own
    way. *)
Definition encode_float (x : pyfloat) : string :=
  let r := float_repr x in
  if r =? "nan" then "NaN"
  else if r =? "inf" then "Infinity"
  else if r =? "-inf" then "-Infinity"
  else r.

(** [sorted(dct.items())]: a stable insertion sort on the keys, compared
    code point by code point. *)
Fixpoint insert_item {A} (x : string * A) (l : list (string * A)) : list (string * A) :=
  match l with
  | [] => [x]
  | y :: tl => if String.ltb (fst y) (fst x) then y :: insert_item x tl else x :: l
  end.

Definition sort_items {A} (l : list (string * A)) : list (string * A) :=
  fold_right insert_item [] l.

(** [json.dumps(v, sort_keys=True, separators=(",", ":"))] *)
Fixpoint dumps (v : json) : string :=
  match v with
  | JNull => "null"
  | JBool true => "true"
  | JBool false => "false"
  | JInt n => str_of_int n
  | JFloat x => encode_float x
  | JStr s => encode_str s
  | JList l => "[" ++ join "," (map dumps l) ++ "]"
  | JDict items =>
      let rendered := map (fun kv => (fst kv, dumps (snd kv))) items in
      "{" ++ join "," (map (fun kv => encode_str (fst kv) ++ ":" ++ snd kv)
                           (sort_items rendered)) ++ "}"
  end.

(** ** Dict operations used by the menu *)

(** [key in d] *)
Definition dict_contains (key : string) (d : pydict) : bool :=
  existsb (fun kv => fst kv =? key) d.

(** [d[key]] *)
Fixpoint dict_get (key : string) (d : pydict) : option json :=
  match d with
  | [] => None
  | (k, v) :: tl => if k =? key then Some v else dict_get key tl
  end.

(** [d[key] = v]: an existing key keeps its place, a new one goes last. *)
Fixpoint dict_set (key : string) (v : json) (d : pydict) : pydict :=
  match d with
  | [] => [(key, v)]
  | (k, v') :: tl => if k =? key then (k, v) :: tl else (k, v') :: dict_set key v tl
  end.

(** ** Outcomes of a call

    A call returns, raises, or is still running when the fuel that bounds
    the number of iterations of the mining loop is used up. *)

Inductive exn := AssertionError | IndexError.

Inductive outcome (A : Type) :=
| Returned (a : A)
| Raised (e : exn)
| OutOfFuel.

Arguments Returned {A} a.
Arguments Raised {A} e.
Arguments OutOfFuel {A}.

(** ** class Block

    The payload is a dict with string keys, as the two places that
    build one write it (lines 53 and 129). Each of them evaluates a dict
    display, so no two blocks hold the same dict object, and the
    assignment of line 153, which updates that object in place, changes
    the payload of the one block it was taken from. *)

Record Block := mkBlock {
  index : Z;
  timestamp : pyfloat;
  data : pydict;
  previous_hash : string;
  nonce : Z;
  hash : string
}.

Definition set_hash (b : Block) (h : string) : Block :=
  mkBlock (index b) (timestamp b) (data b) (previous_hash b) (nonce b) h.

Definition set_nonce (b : Block) (n : Z) : Block :=
  mkBlock (index b) (timestamp b) (data b) (previous_hash b) n (hash b).

Definition set_data (b : Block) (d : pydict) : Block :=
  mkBlock (index b) (timestamp b) d (previous_hash b) (nonce b) (hash b).

(** [header_string], lines 27-30. *)
Definition header_string (b : Block) : string :=
  let data_json := dumps (JDict (data b)) in
  str_of_int (index b) ++ "|" ++ str_of_float (timestamp b) ++ "|"
    ++ previous_hash b ++ "|" ++ data_json ++ "|" ++ str_of_int (nonce b).

(** [compute_hash], lines 32-33. *)
Definition compute_hash (b : Block) : string := sha256_hex (header_string b).

(** [Block.__init__], lines 19-25; [now] is what [time.time()] returns.
    The attribute [hash] does not exist before line 25 and the header
    does not read it. *)
Definition Block_init (now : pyfloat) (index : Z) (data : pydict)
    (previous_hash : string) : Block :=
  let b := mkBlock index now data previous_hash 0 "" in
  set_hash b (compute_hash b).

(** The loop of [mine], lines 40-44, for at most [fuel] iterations. *)
Fixpoint mine_loop (fuel : nat) (target_prefix : string) (b : Block) : outcome Block :=
  match fuel with
  | O => OutOfFuel
  | S fuel' =>
      let b := set_hash b (compute_hash b) in
      if startswith (hash b) target_prefix then Returned b
      else mine_loop fuel' target_prefix (set_nonce b (nonce b + 1))
  end.

(** [mine], lines 35-44. *)
Definition mine (fuel : nat) (difficulty : Z) (b : Block) : outcome Block :=
  if difficulty >=? 0 then
    let target_prefix := str_repeat "0" difficulty in
    mine_loop fuel target_prefix b
  else Raised AssertionError.

(** The same loop statement by statement: the control point is the line
    about to run. *)
Inductive mine_pc :=
| AtAssign   (* line 41: self.hash = self.compute_hash() *)
| AtTest     (* line 42: if self.hash.startswith(target_prefix) *)
| AtReturn   (* line 43: return *)
| AtIncr.    (* line 44: self.nonce += 1 *)

Definition mine_step (target_prefix : string) (s : mine_pc * Block) : mine_pc * Block :=
  let (pc, b) := s in
  match pc with
  | AtAssign => (AtTest, set_hash b (compute_hash b))
  | AtTest => if startswith (hash b) target_prefix then (AtReturn, b) else (AtIncr, b)
  | AtIncr => (AtAssign, set_nonce b (nonce b + 1))
  | AtReturn => (AtReturn, b)
  end.

Fixpoint mine_steps (n : nat) (target_prefix : string) (s : mine_pc * Block)
    : mine_pc * Block :=
  match n with
  | O => s
  | S n' => mine_steps n' target_prefix (mine_step target_prefix s)
  end.

(** ** class Blockchain *)

Record Blockchain := mkChain {
  difficulty : Z;
  chain : list Block
}.

(** What the program prints, one constructor per [print] of the chain
    operations; the elapsed time of line 69 is not kept. *)
Inductive message :=
| MinedBlock (index : Z) (hash16 : string) (nonce : Z)   (* line 69 *)
| HashMismatch (i : nat)                                 (* line 79 *)
| DifficultyFail (i : nat)                               (* line 82 *)
| GenesisIncorrect                                       (* line 87 *)
| PreviousHashMismatch (i : nat)                         (* line 92 *)
| BlockModified (index : Z)                              (* line 154 *)
| InvalidField                                           (* line 156 *)
| InvalidIndex.                                          (* line 158 *)

(** The state a chain operation runs in: the chain object and the
    console. *)
Record world := mkWorld {
  self : Blockchain;
  stdout : list message
}.

Definition M (A : Type) : Type := world -> outcome (A * world).

Definition ret {A} (a : A) : M A := fun w => Returned (a, w).

Definition bind {A B} (c : M A) (k : A -> M B) : M B :=
  fun w =>
    match c w with
    | Returned (a, w') => k a w'
    | Raised e => Raised e
    | OutOfFuel => OutOfFuel
    end.

Notation "x <- c1 ;; c2" := (bind c1 (fun x => c2))
  (at level 61, c1 at next level, right associativity).
Notation "c1 ;; c2" := (bind c1 (fun _ => c2))
  (at level 61, right associativity).

Definition raise {A} (e : exn) : M A := fun _ => Raised e.

Definition read {A} (f : Blockchain -> A) : M A := fun w => Returned (f (self w), w).

Definition write_chain (l : list Block) : M unit :=
  fun w => Returned (tt, mkWorld (mkChain (difficulty (self w)) l) (stdout w)).

Definition print (m : message) : M unit :=
  fun w => Returned (tt, mkWorld (self w) (stdout w ++ [m])%list).

Definition lift {A} (o : outcome A) : M A :=
  fun w =>
    match o with
    | Returned a => Returned (a, w)
    | Raised e => Raised e
    | OutOfFuel => OutOfFuel
    end.

(** [l[i]] for [0 <= i]; [IndexError] past the end. *)
Definition item {A} (l : list A) (i : nat) : M A :=
  match nth_error l i with
  | Some x => ret x
  | None => raise IndexError
  end.

(** A [for] loop whose body may [return]: [Some v] leaves the loop and
    the function with [v], [None] goes on with the next element. *)
Fixpoint for_each {X R} (l : list X) (body : X -> M (option R)) : M (option R) :=
  match l with
  | [] => ret None
  | x :: tl =>
      r <- body x ;;
      match r with
      | Some v => ret (Some v)
      | None => for_each tl body
      end
  end.

(** [enumerate(l, start)] *)
Fixpoint enumerate_from {A} (start : nat) (l : list A) : list (nat * A) :=
  match l with
  | [] => []
  | x :: tl => (start, x) :: enumerate_from (S start) tl
  end.

Definition enumerate {A} (l : list A) : list (nat * A) := enumerate_from 0 l.

Definition zeros64 : string := str_repeat "0" 64.

Definition genesis_data : pydict := [("msg", JStr "Genesis Block")].

(** [_create_genesis], lines 51-56. *)
Definition create_genesis (fuel : nat) (now : pyfloat) (difficulty : Z) : outcome Block :=
  let genesis := Block_init now 0 genesis_data zeros64 in
  mine fuel difficulty genesis.

(** [Blockchain.__init__], lines 47-49. *)
Definition Blockchain_init (fuel : nat) (now : pyfloat) (difficulty : Z)
    : outcome Blockchain :=
  match create_genesis fuel now difficulty with
  | Returned genesis => Returned (mkChain difficulty [genesis])
  | Raised e => Raised e
  | OutOfFuel => OutOfFuel
  end.

(** [tip], lines 58-60: [self.chain[-1]]. *)
Definition tip : M Block :=
  c <- read chain ;;
  match c with
  | [] => raise IndexError
  | b :: tl => ret (last tl b)
  end.

(** [add_block], lines 62-70. *)
Definition add_block (fuel : nat) (now : pyfloat) (data : pydict) : M Block :=
  t <- tip ;;
  let new_block := Block_init now (index t + 1) data (hash t) in
  d <- read difficulty ;;
  new_block <- lift (mine fuel d new_block) ;;
  c <- read chain ;;
  write_chain (c ++ [new_block])%list ;;
  print (MinedBlock (index new_block) (substring 0 16 (hash new_block)) (nonce new_block)) ;;
  ret new_block.

(** The body of the loop of [is_valid], lines 76-93. *)
Definition is_valid_body (target_prefix : string) (ib : nat * Block) : M (option bool) :=
  let (i, block) := ib in
  let recalculated := compute_hash block in
  if negb (hash block =? recalculated) then
    print (HashMismatch i) ;; ret (Some false)
  else if negb (startswith (hash block) target_prefix) then
    print (DifficultyFail i) ;; ret (Some false)
  else if Nat.eqb i 0 then
    if negb (previous_hash block =? zeros64) then
      print GenesisIncorrect ;; ret (Some false)
    else ret None
  else
    c <- read chain ;;
    prev <- item c (i - 1) ;;
    if negb (previous_hash block =? hash prev) then
      print (PreviousHashMismatch i) ;; ret (Some false)
    else ret None.

(** [is_valid], lines 72-94. *)
Definition is_valid : M bool :=
  d <- read difficulty ;;
  let target_prefix := str_repeat "0" d in
  c <- read chain ;;
  r <- for_each (enumerate c) (is_valid_body target_prefix) ;;
  match r with
  | Some v => ret v
  | None => ret true
  end.

(** In-place update of the element at position [i]. *)
Fixpoint update_nth {A} (i : nat) (f : A -> A) (l : list A) : list A :=
  match l, i with
  | [], _ => []
  | x :: tl, O => f x :: tl
  | x :: tl, S i' => x :: update_nth i' f tl
  end.

(** Menu entry 4, lines 150-158, after the three inputs are read:
    [new_value] is the text typed, so the field becomes a string. *)
Definition tamper (index : Z) (key new_value : string) : M unit :=
  c <- read chain ;;
  if ((0 <=? index) && (index <? Z.of_nat (List.length c)))%Z then
    block <- item c (Z.to_nat index) ;;
    if dict_contains key (data block) then
      write_chain (update_nth (Z.to_nat index)
                     (fun b => set_data b (dict_set key (JStr new_value) (data b))) c) ;;
      print (BlockModified index)
    else print InvalidField
  else print InvalidIndex.

(** ** Notions used in the statements *)

(** Two blocks that differ at most in [nonce] and [hash]. *)
Definition same_content (b b' : Block) : Prop :=
  index b' = index b /\ timestamp b' = timestamp b /\ data b' = data b
  /\ previous_hash b' = previous_hash b.

(** The points of the loop at which the stored hash is the digest of
    the current header: everywhere but before the assignment of line 41. *)
Definition hash_current (s : mine_pc * Block) : Prop :=
  match fst s with
  | AtAssign => True
  | _ => hash (snd s) = compute_hash (snd s)
  end.

(** What each point of the loop knows of the block: the nonce is not
    negative; after the assignment of line 41 the stored hash is the
    digest of the current header; and where line 44 is about to run,
    that hash has failed the test of line 42. *)
Definition loop_state_ok (t : string) (s : mine_pc * Block) : Prop :=
  let b := snd s in
  0 <= nonce b
  /\ match fst s with
     | AtAssign => True
     | AtIncr => hash b = compute_hash b /\ startswith (hash b) t = false
     | _ => hash b = compute_hash b
     end.

(** The world after one more line on the console. *)
Definition printed (w : world) (m : message) : world :=
  mkWorld (self w) (stdout w ++ [m])%list.

(** The line [add_block] prints for the block it has mined. *)
Definition mined_line (b : Block) : message :=
  MinedBlock (index b) (substring 0 16 (hash b)) (nonce b).

(** The world after [add_block] has attached [nb]. *)
Definition appended (w : world) (nb : Block) : world :=
  mkWorld (mkChain (difficulty (self w)) (chain (self w) ++ [nb])%list)
          (stdout w ++ [mined_line nb])%list.

(** A block after menu entry 4 has written [new_value] at [key]. *)
Definition tampered (key new_value : string) (b : Block) : Block :=
  set_data b (dict_set key (JStr new_value) (data b)).

(** The first check of the body of the loop of [is_valid] that block
    [i] fails in the chain [c], as the line it prints; [None] when the
    block passes all of them. *)
Definition block_failure (t : string) (c : list Block) (ib : nat * Block)
    : option message :=
  let (i, b) := ib in
  if negb (hash b =? compute_hash b) then Some (HashMismatch i)
  else if negb (startswith (hash b) t) then Some (DifficultyFail i)
  else
    match i with
    | O => if negb (previous_hash b =? zeros64) then Some GenesisIncorrect else None
    | S j =>
        match nth_error c j with
        | Some prev =>
            if negb (previous_hash b =? hash prev)
            then Some (PreviousHashMismatch i) else None
        | None => None
        end
    end.

Fixpoint first_failure_in (t : string) (c : list Block) (l : list (nat * Block))
    : option message :=
  match l with
  | [] => None
  | ib :: tl =>
      match block_failure t c ib with
      | Some m => Some m
      | None => first_failure_in t c tl
      end
  end.

(** The first failure along the chain, in the order of the loop. *)
Definition first_failure (bc : Blockchain) : option message :=
  first_failure_in (str_repeat "0" (difficulty bc)) (chain bc) (enumerate (chain bc)).

(** A chain on which every check of validation passes. *)
Definition passes (bc : Blockchain) : Prop := first_failure bc = None.

(** A chain whose element 0 carries the 64 zeros. *)
Definition genesis_linked (bc : Blockchain) : Prop :=
  exists g rest, chain bc = g :: rest /\ previous_hash g = zeros64.

(** The states of a chain object: built by the constructor, then changed
    by [add_block] and, when [tampering] is allowed, by menu entry 4;
    validation may run in between. Each mining has its own fuel. *)
Inductive reachable (tampering : bool) : world -> Prop :=
| reach_init fuel now d bc out :
    Blockchain_init fuel now d = Returned bc ->
    reachable tampering (mkWorld bc out)
| reach_add w fuel now payload nb w' :
    reachable tampering w ->
    add_block fuel now payload w = Returned (nb, w') ->
    reachable tampering w'
| reach_valid w r w' :
    reachable tampering w ->
    is_valid w = Returned (r, w') ->
    reachable tampering w'
| reach_tamper w i key new_value w' :
    tampering = true ->
    reachable tampering w ->
    tamper i key new_value w = Returned (tt, w') ->
    reachable tampering w'.

(** ** Sample data

    A genesis block created at a fixed clock reading and mined at
    difficulty 1 (the nonces 0 and 1 fail, 2 succeeds), the chain made of
    it and of one more block, and two genesis blocks whose previous hash
    is not the 64 zeros: one with the stored hash of the sample block,
    one with the hash recomputed. *)

Definition sample_time : pyfloat := mkFloat "1699999999.123456".

Definition sample_block : Block := Block_init sample_time 0 genesis_data zeros64.

Definition sample_mined : Block :=
  set_hash (set_nonce sample_block 2)
    "05f76ffd729a123224fbcfb69956e911b8a1009b97b10888f1216b7c1747083a".

Definition sample_time2 : pyfloat := mkFloat "1700000000.5".

Definition sample_payload : pydict :=
  [("from", JStr "A"); ("to", JStr "B"); ("amount", JFloat (mkFloat "10.0"))].

Definition sample_second : Block :=
  mkBlock 1 sample_time2 sample_payload (hash sample_mined) 10
    "076460cd852c900491cf2eb1489494457adfc8cc5e076720ade99f443ef7a141".

Definition sample_world0 : world := mkWorld (mkChain 1 [sample_mined]) [].

Definition sample_world : world :=
  mkWorld (mkChain 1 [sample_mined; sample_second]) [mined_line sample_second].

Definition sample_unlinked : Block :=
  mkBlock 0 sample_time genesis_data "" 0 (hash sample_block).

Definition sample_unlinked_world : world := mkWorld (mkChain 0 [sample_unlinked]) [].

Definition sample_relinked : Block :=
  set_hash (mkBlock 0 sample_time genesis_data "" 0 "")
           (compute_hash (mkBlock 0 sample_time genesis_data "" 0 "")).

(** ** Further notions

    What the statements about the rest of the code use. *)



(** Block [b] at position [i] of the chain [c] passes the three checks
    of the loop of [is_valid]: stored hash, difficulty, link. *)
Definition block_ok (t : string) (c : list Block) (i : nat) (b : Block) : Prop :=
  hash b = compute_hash b
  /\ startswith (hash b) t = true
  /\ match i with
     | O => previous_hash b = zeros64
     | S j => exists prev, nth_error c j = Some prev /\ previous_hash b = hash prev
     end.

(** Block [b] at position [i] fails, and [m] is the line of the first
    check it fails. *)
Definition fails_with (t : string) (c : list Block) (i : nat) (b : Block)
    (m : message) : Prop :=
  (m = HashMismatch i /\ hash b <> compute_hash b)
  \/ (m = DifficultyFail i /\ hash b = compute_hash b
      /\ startswith (hash b) t = false)
  \/ (m = GenesisIncorrect /\ i = O /\ hash b = compute_hash b
      /\ startswith (hash b) t = true /\ previous_hash b <> zeros64)
  \/ (m = PreviousHashMismatch i /\ hash b = compute_hash b
      /\ startswith (hash b) t = true
      /\ exists j prev, i = S j /\ nth_error c j = Some prev
                        /\ previous_hash b <> hash prev).

(** Everything of a block but its payload. *)
Definition skeleton (b : Block) : Z * pyfloat * string * Z * string :=
  (index b, timestamp b, previous_hash b, nonce b, hash b).

(** What the constructor and [add_block] establish for the block at
    position [i] and no operation of the program undoes. *)
Definition block_wf (d : Z) (c : list Block) (i : nat) (b : Block) : Prop :=
  index b = Z.of_nat i
  /\ 0 <= nonce b
  /\ String.length (hash b) = 64%nat
  /\ startswith (hash b) (str_repeat "0" d) = true
  /\ match i with
     | O => previous_hash b = zeros64
     | S j => exists prev, nth_error c j = Some prev /\ previous_hash b = hash prev
     end.

Definition chain_wf (bc : Blockchain) : Prop :=
  0 <= difficulty bc <= 64
  /\ chain bc <> []
  /\ forall i b, nth_error (chain bc) i = Some b ->
       block_wf (difficulty bc) (chain bc) i b.

(** Any sequence of the three operations on a chain object, from any
    state. *)
Inductive chain_run : world -> world -> Prop :=
| run_done w : chain_run w w
| run_add w fuel now payload nb w1 w2 :
    add_block fuel now payload w = Returned (nb, w1) ->
    chain_run w1 w2 -> chain_run w w2
| run_valid w r w1 w2 :
    is_valid w = Returned (r, w1) ->
    chain_run w1 w2 -> chain_run w w2
| run_tamper w i key new_value w1 w2 :
    tamper i key new_value w = Returned (tt, w1) ->
    chain_run w1 w2 -> chain_run w w2.

(** The chain [c'] keeps every block of [c] at its place, but possibly
    for the payload. *)
Definition keeps_blocks (c c' : list Block) : Prop :=
  forall i b, nth_error c i = Some b ->
    exists b', nth_error c' i = Some b' /\ skeleton b' = skeleton b.

(** The order [sorted] puts the items of a dict in: by key. *)
Definition key_lt {A} (x y : string * A) : Prop := String.ltb (fst x) (fst y) = true.

(** * Properties *)

(** ** The library models on known values *)

Example sha256_hex_empty :
  sha256_hex "" = "e3b0c44298fc1c149afbf4c8996fb92427ae41e4649b934ca495991b7852b855".
Proof. vm_compute. reflexivity. Qed.

Example sha256_hex_abc :
  sha256_hex "abc" = "ba7816bf8f01cfea414140de5dae2223b00361a396177a9cb410ff61f20015ad".
Proof. vm_compute. reflexivity. Qed.

Example dumps_sorts_keys :
  dumps (JDict [("to", JStr "B"); ("from", JStr "A"); ("n", JList [JInt 1; JNull])])
  = "{" ++ quote ++ "from" ++ quote ++ ":" ++ quote ++ "A" ++ quote ++ ","
        ++ quote ++ "n" ++ quote ++ ":[1,null],"
        ++ quote ++ "to" ++ quote ++ ":" ++ quote ++ "B" ++ quote ++ "}".
Proof. vm_compute. reflexivity. Qed.

(** ** Strings *)

Lemma startswith_iter_get (c : ascii) (n : nat) :
  forall s i, startswith s (Nat.iter n (String c) "") = true ->
    (i < n)%nat -> get i s = Some c.
Proof.
  induction n as [|n IH]; intros s i Hs Hi; [lia|].
  simpl in Hs. destruct s as [|c' s']; [discriminate|].
  apply andb_true_iff in Hs as [Hc Hs].
  apply Ascii.eqb_eq in Hc. subst c'.
  destruct i as [|i]; simpl; [reflexivity|].
  apply IH; [assumption|lia].
Qed.

Lemma startswith_zeros_get (s : string) (d i : Z) :
  startswith s (str_repeat "0" d) = true ->
  0 <= i < d -> get (Z.to_nat i) s = Some "0"%char.
Proof.
  unfold str_repeat. intros Hs Hi.
  eapply startswith_iter_get; [eassumption|lia].
Qed.

Lemma startswith_empty (s : string) : startswith s "" = true.
Proof. reflexivity. Qed.

(** ** The header ignores the stored hash *)

Lemma header_string_set_hash (b : Block) (h : string) :
  header_string (set_hash b h) = header_string b.
Proof. reflexivity. Qed.

Lemma compute_hash_set_hash (b : Block) (h : string) :
  compute_hash (set_hash b h) = compute_hash b.
Proof. reflexivity. Qed.

Lemma Block_init_hash (now : pyfloat) (i : Z) (d : pydict) (p : string) :
  hash (Block_init now i d p) = compute_hash (Block_init now i d p).
Proof. reflexivity. Qed.

(** ** The mining loop *)

Lemma set_nonce_self (b : Block) : set_nonce b (nonce b) = b.
Proof. destruct b; reflexivity. Qed.

Lemma compute_hash_same_content (b b' : Block) :
  same_content b b' -> nonce b' = nonce b -> compute_hash b' = compute_hash b.
Proof.
  intros (Hi & Ht & Hd & Hp) Hn. unfold compute_hash, header_string.
  now rewrite Hi, Ht, Hd, Hp, Hn.
Qed.

(** What a returning run of the loop establishes: the stored hash is the
    digest of the final header and has the prefix, only [nonce] and
    [hash] moved, and no nonce from the first one up to the final one
    had a digest with the prefix. *)
Lemma mine_loop_returned (t : string) :
  forall fuel b b', mine_loop fuel t b = Returned b' ->
    hash b' = compute_hash b'
    /\ startswith (hash b') t = true
    /\ same_content b b'
    /\ nonce b <= nonce b'
    /\ (Z.to_nat (nonce b' - nonce b) < fuel)%nat
    /\ forall m, nonce b <= m < nonce b' ->
         startswith (compute_hash (set_nonce b m)) t = false.
Proof.
  induction fuel as [|fuel IH]; intros b b' H; [discriminate|].
  simpl in H.
  destruct (startswith (compute_hash b) t) eqn:Hp.
  - injection H as <-. simpl.
    repeat split; try assumption; lia.
  - apply IH in H. simpl in H.
    destruct H as (Hh & Hs & (Hi & Ht & Hd & Hq) & Hn & Hf & Hmin).
    repeat split; try assumption; try lia.
    intros m Hm.
    destruct (Z.eq_dec m (nonce b)) as [->|Hne].
    + rewrite set_nonce_self. exact Hp.
    + specialize (Hmin m ltac:(lia)). exact Hmin.
Qed.

(** More fuel does not change what a returning run returns. *)
Lemma mine_loop_more_fuel (t : string) :
  forall fuel fuel' b b', mine_loop fuel t b = Returned b' ->
    (fuel <= fuel')%nat -> mine_loop fuel' t b = Returned b'.
Proof.
  induction fuel as [|fuel IH]; intros fuel' b b' H Hle; [discriminate|].
  destruct fuel' as [|fuel']; [lia|].
  simpl in *.
  destruct (startswith (compute_hash b) t); [assumption|].
  apply IH; [assumption|lia].
Qed.

(** A block whose stored hash is already the digest of its header and
    has the prefix is returned as it is, on the first test. *)
Lemma mine_loop_fixed (t : string) (fuel : nat) (b : Block) :
  hash b = compute_hash b -> startswith (hash b) t = true ->
  mine_loop (S fuel) t b = Returned b.
Proof.
  intros Hh Hs. simpl. rewrite <- Hh, Hs.
  destruct b; simpl in *; reflexivity.
Qed.

Lemma mine_nonneg (fuel : nat) (d : Z) (b : Block) :
  0 <= d -> mine fuel d b = mine_loop fuel (str_repeat "0" d) b.
Proof.
  intros Hd. unfold mine.
  destruct (d >=? 0) eqn:E; [reflexivity|]. lia.
Qed.

Lemma mine_returned_nonneg (fuel : nat) (d : Z) (b b' : Block) :
  mine fuel d b = Returned b' -> 0 <= d.
Proof.
  unfold mine. destruct (d >=? 0) eqn:E; [lia|discriminate].
Qed.

(** Difficulty 0: the empty prefix matches on the first test. *)
Lemma mine_zero (fuel : nat) (b : Block) :
  mine (S fuel) 0 b = Returned (set_hash b (compute_hash b)).
Proof. reflexivity. Qed.

(** ** The loop, statement by statement *)

Lemma mine_steps_add (t : string) (n m : nat) :
  forall s, mine_steps (n + m) t s = mine_steps m t (mine_steps n t s).
Proof.
  induction n as [|n IH]; intros s; simpl; [reflexivity|apply IH].
Qed.

Lemma mine_steps_return (t : string) (n : nat) (b : Block) :
  mine_steps n t (AtReturn, b) = (AtReturn, b).
Proof. induction n as [|n IH]; simpl; [reflexivity|exact IH]. Qed.

(** One iteration of [mine_loop] is three statements. *)
Lemma mine_loop_steps (t : string) :
  forall fuel b b', mine_loop fuel t b = Returned b' ->
    exists n, (n <= 3 * fuel)%nat /\ mine_steps n t (AtAssign, b) = (AtReturn, b').
Proof.
  induction fuel as [|fuel IH]; intros b b' H; [discriminate|].
  simpl in H.
  destruct (startswith (compute_hash b) t) eqn:Hp.
  - injection H as <-. exists 2%nat. split; [lia|].
    simpl. now rewrite Hp.
  - apply IH in H as (n & Hn & Hrun).
    exists (3 + n)%nat. split; [lia|].
    rewrite mine_steps_add. simpl. rewrite Hp. exact Hrun.
Qed.

Lemma mine_steps_loop (t : string) :
  forall fuel n b b', (n <= 3 * fuel)%nat ->
    mine_steps n t (AtAssign, b) = (AtReturn, b') ->
    mine_loop fuel t b = Returned b'.
Proof.
  induction fuel as [|fuel IH]; intros n b b' Hn H.
  - assert (n = 0)%nat as -> by lia. discriminate.
  - simpl.
    destruct n as [|[|n]]; [discriminate | discriminate |].
    simpl in H.
    destruct (startswith (compute_hash b) t) eqn:Hp.
    + rewrite mine_steps_return in H. now injection H as <-.
    + destruct n as [|n]; [discriminate|].
      simpl in H. apply (IH n); [lia|exact H].
Qed.

Lemma mine_step_hash_current (t : string) (s : mine_pc * Block) :
  hash_current s -> hash_current (mine_step t s).
Proof.
  destruct s as [[] b]; unfold hash_current; simpl; intros H;
    try reflexivity; try assumption.
  destruct (startswith (hash b) t); simpl; assumption.
Qed.

Lemma mine_steps_hash_current (t : string) (n : nat) :
  forall s, hash_current s -> hash_current (mine_steps n t s).
Proof.
  induction n as [|n IH]; intros s H; simpl; [assumption|].
  apply IH, mine_step_hash_current, H.
Qed.

Lemma mine_steps_succ (t : string) (n : nat) (s : mine_pc * Block) :
  mine_steps (S n) t s = mine_step t (mine_steps n t s).
Proof.
  replace (S n) with (n + 1)%nat by lia. now rewrite mine_steps_add.
Qed.

Lemma mine_step_state_ok (t : string) (s : mine_pc * Block) :
  loop_state_ok t s -> loop_state_ok t (mine_step t s).
Proof.
  destruct s as [[] b]; unfold loop_state_ok; simpl; intros (Hn & H).
  - split; [exact Hn|reflexivity].
  - destruct (startswith (hash b) t) eqn:E; simpl; split; auto.
  - split; [exact Hn|exact H].
  - split; [lia|exact I].
Qed.

Lemma mine_steps_state_ok (t : string) (n : nat) :
  forall s, loop_state_ok t s -> loop_state_ok t (mine_steps n t s).
Proof.
  induction n as [|n IH]; intros s H; simpl; [assumption|].
  apply IH, mine_step_state_ok, H.
Qed.

(** The assignment of line 41 is reached again only from the increment
    of line 44: the stored hash is then the digest of the header with
    the nonce just given up, which failed the test. *)
Lemma mine_steps_after_increment (t : string) (n : nat) (s0 : mine_pc * Block)
    (b : Block) :
  loop_state_ok t s0 ->
  mine_steps (S n) t s0 = (AtAssign, b) ->
  1 <= nonce b
  /\ hash b = compute_hash (set_nonce b (nonce b - 1))
  /\ startswith (hash b) t = false.
Proof.
  intros H0 Hn. rewrite mine_steps_succ in Hn.
  pose proof (mine_steps_state_ok t n s0 H0) as Hinv.
  destruct (mine_steps n t s0) as [pc b'].
  destruct pc; simpl in Hn.
  - discriminate.
  - destruct (startswith (hash b') t); discriminate.
  - discriminate.
  - injection Hn as <-. destruct Hinv as (Hnn & Hh & Hs). simpl in *.
    split; [lia|]. split; [|exact Hs].
    rewrite Hh. destruct b'; unfold set_nonce; simpl.
    now replace (nonce0 + 1 - 1) with nonce0 by lia.
Qed.

Lemma mine_loop_not_raised (t : string) (e : exn) :
  forall fuel b, mine_loop fuel t b <> Raised e.
Proof.
  induction fuel as [|fuel IH]; intros b; simpl; [discriminate|].
  destruct (startswith (compute_hash b) t); [discriminate|apply IH].
Qed.

Example sample_block_mined : mine 3 1 sample_block = Returned sample_mined.
Proof. vm_compute. reflexivity. Qed.

(** ** Mining *)

(** C2. For every block and difficulty [d >= 0], when [mine(d)] returns
    the stored hash is the SHA-256 hex digest of the block's header with
    the final nonce and its first [d] characters are all '0'; in every
    iteration of the loop the hash tested at line 42 is the digest of the
    header with the nonce under test, written at line 41 just before,
    and the outcome of that test decides between returning and going on. *)
Theorem mine_returns_current_hash_with_zero_prefix
    (fuel : nat) (d : Z) (b b' : Block) :
  0 <= d ->
  mine fuel d b = Returned b' ->
  hash b' = sha256_hex (header_string b')
  /\ (forall i, 0 <= i < d -> get (Z.to_nat i) (hash b') = Some "0"%char)
  /\ (exists n, mine_steps n (str_repeat "0" d) (AtAssign, b) = (AtReturn, b'))
  /\ (forall n b1,
        mine_steps n (str_repeat "0" d) (AtAssign, b) = (AtTest, b1) ->
        hash b1 = sha256_hex (header_string b1)
        /\ mine_steps (S n) (str_repeat "0" d) (AtAssign, b)
           = if startswith (sha256_hex (header_string b1)) (str_repeat "0" d)
             then (AtReturn, b1) else (AtIncr, b1)).
Proof.
  intros Hd H. rewrite mine_nonneg in H by assumption.
  pose proof (mine_loop_returned _ _ _ _ H) as (Hh & Hs & _).
  split; [exact Hh|]. split.
  { intros i Hi. now apply startswith_zeros_get with (d := d). }
  split.
  { apply mine_loop_steps in H as (n & _ & Hn). now exists n. }
  intros n b1 Hn.
  assert (Hc : hash b1 = compute_hash b1).
  { pose proof (mine_steps_hash_current (str_repeat "0" d) n (AtAssign, b) I) as Hc.
    rewrite Hn in Hc. exact Hc. }
  split; [exact Hc|].
  rewrite mine_steps_succ, Hn. simpl. now rewrite Hc.
Qed.

Lemma mine_returns_current_hash_with_zero_prefix_witness :
  0 <= 1 /\ mine 3 1 sample_block = Returned sample_mined
  /\ hash sample_mined = sha256_hex (header_string sample_mined)
  /\ get 0 (hash sample_mined) = Some "0"%char.
Proof.
  assert (Hd : 0 <= 1) by lia.
  assert (Hm : mine 3 1 sample_block = Returned sample_mined)
    by (vm_compute; reflexivity).
  destruct (mine_returns_current_hash_with_zero_prefix 3 1 _ _ Hd Hm)
    as (Hh & Hz & _).
  split; [exact Hd|]. split; [exact Hm|]. split; [exact Hh|].
  apply (Hz 0). lia.
Defined.

(** C10. When [mine(d)] returns with final nonce [n], having started at
    nonce [n0], then [n >= n0], the digest of the header with nonce [n]
    begins with [d] characters '0', and for no nonce [m] with
    [n0 <= m < n] does the digest of the header with nonce [m] begin
    with [d] characters '0'. *)
Theorem mine_finds_least_nonce (fuel : nat) (d : Z) (b b' : Block) :
  mine fuel d b = Returned b' ->
  nonce b <= nonce b'
  /\ same_content b b'
  /\ startswith (sha256_hex (header_string (set_nonce b (nonce b'))))
       (str_repeat "0" d) = true
  /\ forall m, nonce b <= m < nonce b' ->
       startswith (sha256_hex (header_string (set_nonce b m)))
         (str_repeat "0" d) = false.
Proof.
  intros H. pose proof (mine_returned_nonneg _ _ _ _ H) as Hd.
  rewrite mine_nonneg in H by assumption.
  apply mine_loop_returned in H as (Hh & Hs & Hc & Hn & _ & Hmin).
  split; [exact Hn|]. split; [exact Hc|]. split; [|exact Hmin].
  assert (He : compute_hash b' = compute_hash (set_nonce b (nonce b')))
    by (apply compute_hash_same_content; [exact Hc|reflexivity]).
  unfold compute_hash in He. rewrite <- He.
  rewrite Hh in Hs. exact Hs.
Qed.

Lemma mine_finds_least_nonce_witness :
  mine 3 1 sample_block = Returned sample_mined
  /\ nonce sample_block = 0 /\ nonce sample_mined = 2
  /\ startswith (sha256_hex (header_string (set_nonce sample_block 1)))
       (str_repeat "0" 1) = false.
Proof.
  assert (Hm : mine 3 1 sample_block = Returned sample_mined)
    by (vm_compute; reflexivity).
  destruct (mine_finds_least_nonce 3 1 _ _ Hm) as (_ & _ & _ & Hmin).
  split; [exact Hm|]. split; [reflexivity|]. split; [reflexivity|].
  apply (Hmin 1). simpl. lia.
Defined.

(** C7. For every difficulty [d < 0], [mine(d)] raises the assertion
    error of line 37 whatever the block, and so does the construction of
    a chain, which mines the genesis block; [d] is not replaced by a
    legal value: no difficulty [d' >= 0] gives the same outcome. *)
Theorem mine_negative_difficulty_raises (fuel : nat) (d : Z) (b : Block) :
  d < 0 ->
  mine fuel d b = Raised AssertionError
  /\ (forall now, Blockchain_init fuel now d = Raised AssertionError)
  /\ (forall d', 0 <= d' -> mine fuel d' b <> mine fuel d b).
Proof.
  intros Hd.
  assert (Hr : forall b0, mine fuel d b0 = Raised AssertionError).
  { intros b0. unfold mine. destruct (d >=? 0) eqn:E; [lia|reflexivity]. }
  split; [apply Hr|]. split.
  - intros now. unfold Blockchain_init, create_genesis. now rewrite Hr.
  - intros d' Hd'. rewrite Hr, mine_nonneg by assumption.
    apply mine_loop_not_raised.
Qed.

Lemma mine_negative_difficulty_raises_witness :
  -1 < 0 /\ mine 5 (-1) sample_block = Raised AssertionError.
Proof.
  assert (Hd : -1 < 0) by lia.
  split; [exact Hd|].
  exact (proj1 (mine_negative_difficulty_raises 5 (-1) sample_block Hd)).
Defined.

(** C6, as stated, fails: no block and difficulty exist for which a
    second [mine(d)], right after the first has returned, ends on
    another nonce. *)
Lemma mine_twice_same_difficulty_same_nonce :
  ~ exists (fuel1 fuel2 : nat) (d : Z) (b b1 b2 : Block),
      mine fuel1 d b = Returned b1
      /\ mine fuel2 d b1 = Returned b2
      /\ nonce b2 <> nonce b1.
Proof.
  intros (fuel1 & fuel2 & d & b & b1 & b2 & H1 & H2 & Hne).
  pose proof (mine_returned_nonneg _ _ _ _ H1) as Hd.
  rewrite mine_nonneg in H1, H2 by assumption.
  apply mine_loop_returned in H1 as (Hh & Hs & _).
  destruct fuel2 as [|fuel2]; [discriminate|].
  rewrite (mine_loop_fixed _ _ _ Hh Hs) in H2.
  injection H2 as <-. now apply Hne.
Qed.

(** C6, amended. A second [mine(d)] with the same [d], right after the
    first has returned, returns on its first test and leaves the block,
    nonce and hash included, as it is; the search of any later call
    starts from the block's current nonce, never from 0, so it can only
    end on the same or a larger nonce. *)
Theorem mine_again_resumes_from_current_nonce
    (fuel : nat) (d : Z) (b b1 : Block) :
  mine fuel d b = Returned b1 ->
  (forall fuel2, (0 < fuel2)%nat -> mine fuel2 d b1 = Returned b1)
  /\ (forall fuel2 d2 b2, mine fuel2 d2 b1 = Returned b2 ->
        nonce b1 <= nonce b2 /\ same_content b1 b2).
Proof.
  intros H1. pose proof (mine_returned_nonneg _ _ _ _ H1) as Hd.
  rewrite mine_nonneg in H1 by assumption.
  apply mine_loop_returned in H1 as (Hh & Hs & _).
  split.
  - intros [|fuel2] Hf; [lia|].
    rewrite mine_nonneg by assumption. now apply mine_loop_fixed.
  - intros fuel2 d2 b2 H2.
    pose proof (mine_returned_nonneg _ _ _ _ H2) as Hd2.
    rewrite mine_nonneg in H2 by assumption.
    apply mine_loop_returned in H2 as (_ & _ & Hc & Hn & _). now split.
Qed.

Lemma mine_again_resumes_from_current_nonce_witness :
  mine 3 1 sample_block = Returned sample_mined
  /\ mine 1 1 sample_mined = Returned sample_mined.
Proof.
  assert (Hm : mine 3 1 sample_block = Returned sample_mined)
    by (vm_compute; reflexivity).
  split; [exact Hm|].
  apply (proj1 (mine_again_resumes_from_current_nonce 3 1 _ _ Hm)). lia.
Defined.

(** A second call with a larger difficulty does go on climbing. *)
Example mine_again_larger_difficulty_climbs :
  exists b1 b2,
    mine 1 0 sample_block = Returned b1
    /\ mine 3 1 b1 = Returned b2
    /\ nonce b1 = 0 /\ nonce b2 = 2.
Proof.
  exists sample_block, sample_mined. vm_compute. repeat split.
Qed.

(** C9, as stated, fails: in the mining of the sample block at
    difficulty 1, which returns, the loop passes through a point (after
    the increment of line 44, before the assignment of line 41) where
    the stored hash is not the digest of the current header. *)
Lemma hash_stale_after_nonce_increment :
  exists n b,
    mine_steps n (str_repeat "0" 1) (AtAssign, sample_block) = (AtAssign, b)
    /\ hash b <> sha256_hex (header_string b)
    /\ mine_steps (n + 5) (str_repeat "0" 1) (AtAssign, sample_block)
       = (AtReturn, sample_mined)
    /\ mine 3 1 sample_block = Returned sample_mined.
Proof.
  exists 3%nat. eexists. split; [vm_compute; reflexivity|].
  split; [|split; vm_compute; reflexivity].
  apply String.eqb_neq. vm_compute. reflexivity.
Qed.

(** C9, amended. Right after construction the nonce is 0 and the stored
    hash is the digest of the header, so the hash test of validation
    passes on a block that was never mined; during [mine] the stored
    hash is the digest of the current header at the test of line 42, at
    the return and before the increment of line 44, while between that
    increment and the next assignment of line 41 it is the digest of the
    header with the previous nonce, the one that has just failed the
    test; when [mine] returns it is the digest of the current header
    again. *)
Theorem hash_current_after_init_and_mine
    (now : pyfloat) (i : Z) (d : pydict) (p : string) :
  let b0 := Block_init now i d p in
  nonce b0 = 0
  /\ hash b0 = sha256_hex (header_string b0)
  /\ negb (hash b0 =? compute_hash b0) = false
  /\ (forall t n pc b, mine_steps n t (AtAssign, b0) = (pc, b) ->
        pc <> AtAssign -> hash b = sha256_hex (header_string b))
  /\ (forall t n b, mine_steps (S n) t (AtAssign, b0) = (AtAssign, b) ->
        1 <= nonce b
        /\ hash b = sha256_hex (header_string (set_nonce b (nonce b - 1)))
        /\ startswith (hash b) t = false)
  /\ (forall fuel difficulty b', mine fuel difficulty b0 = Returned b' ->
        hash b' = sha256_hex (header_string b')).
Proof.
  intros b0.
  assert (H0 : forall t, loop_state_ok t (AtAssign, b0)).
  { intros t. split; [simpl; lia|exact I]. }
  split; [reflexivity|]. split; [reflexivity|]. split.
  { subst b0. rewrite Block_init_hash, String.eqb_refl. reflexivity. }
  split; [|split].
  - intros t n pc b Hn Hpc.
    pose proof (mine_steps_state_ok t n _ (H0 t)) as Hinv. rewrite Hn in Hinv.
    destruct Hinv as (_ & Hinv). simpl in Hinv.
    destruct pc; try congruence; try exact Hinv. exact (proj1 Hinv).
  - intros t n b Hn.
    exact (mine_steps_after_increment t n _ b (H0 t) Hn).
  - intros fuel dd b' H.
    pose proof (mine_returned_nonneg _ _ _ _ H) as Hd.
    rewrite mine_nonneg in H by assumption.
    now apply mine_loop_returned in H as (Hh & _).
Qed.

Lemma hash_current_after_init_and_mine_witness :
  mine_steps 2 (str_repeat "0" 1) (AtAssign, sample_block)
    = (AtIncr, sample_block)
  /\ AtIncr <> AtAssign
  /\ hash sample_block = sha256_hex (header_string sample_block)
  /\ mine_steps 3 (str_repeat "0" 1) (AtAssign, sample_block)
     = (AtAssign, set_nonce sample_block 1)
  /\ hash (set_nonce sample_block 1)
     = sha256_hex (header_string (set_nonce (set_nonce sample_block 1) 0))
  /\ mine 3 1 sample_block = Returned sample_mined
  /\ hash sample_mined = sha256_hex (header_string sample_mined).
Proof.
  assert (H2 : mine_steps 2 (str_repeat "0" 1) (AtAssign, sample_block)
               = (AtIncr, sample_block)) by (vm_compute; reflexivity).
  assert (Hpc : AtIncr <> AtAssign) by discriminate.
  assert (H3 : mine_steps 3 (str_repeat "0" 1) (AtAssign, sample_block)
               = (AtAssign, set_nonce sample_block 1)) by (vm_compute; reflexivity).
  assert (Hm : mine 3 1 sample_block = Returned sample_mined)
    by (vm_compute; reflexivity).
  destruct (hash_current_after_init_and_mine sample_time 0 genesis_data zeros64)
    as (_ & _ & _ & Hrun & Hstale & Hret).
  split; [exact H2|]. split; [exact Hpc|].
  split; [exact (Hrun _ _ _ _ H2 Hpc)|].
  split; [exact H3|].
  split; [exact (proj1 (proj2 (Hstale _ _ _ H3)))|].
  split; [exact Hm|].
  exact (Hret _ _ _ Hm).
Defined.

(** ** Validation as a function of the chain *)

Lemma enumerate_from_app {A} (l1 l2 : list A) :
  forall k, enumerate_from k (l1 ++ l2)%list
            = (enumerate_from k l1 ++ enumerate_from (k + List.length l1) l2)%list.
Proof.
  induction l1 as [|x l1 IH]; intros k; simpl.
  - now rewrite Nat.add_0_r.
  - rewrite IH. now replace (S k + List.length l1)%nat with (k + S (List.length l1))%nat by lia.
Qed.

Lemma enumerate_from_bound {A} (l : list A) :
  forall k, Forall (fun ib => (k <= fst ib < k + List.length l)%nat) (enumerate_from k l).
Proof.
  induction l as [|x l IH]; intros k; simpl; constructor.
  - simpl. lia.
  - eapply Forall_impl; [|apply IH]. simpl. intros ib H. lia.
Qed.

Lemma is_valid_body_run (t : string) (i : nat) (b : Block) (w : world) :
  (i <= List.length (chain (self w)))%nat ->
  is_valid_body t (i, b) w
  = Returned match block_failure t (chain (self w)) (i, b) with
             | Some m => (Some false, printed w m)
             | None => (None, w)
             end.
Proof.
  intros Hi. unfold is_valid_body, block_failure.
  destruct (negb (hash b =? compute_hash b)); [reflexivity|].
  destruct (negb (startswith (hash b) t)); [reflexivity|].
  destruct i as [|j]; simpl.
  - destruct (negb (previous_hash b =? zeros64)); reflexivity.
  - unfold bind, read, item. simpl. rewrite Nat.sub_0_r.
    destruct (nth_error (chain (self w)) j) as [prev|] eqn:E.
    + simpl. destruct (negb (previous_hash b =? hash prev)); reflexivity.
    + apply nth_error_None in E. lia.
Qed.

Lemma for_each_is_valid_run (t : string) (c : list Block) :
  forall l w, chain (self w) = c ->
    Forall (fun ib => (fst ib <= List.length c)%nat) l ->
    for_each l (is_valid_body t) w
    = Returned match first_failure_in t c l with
               | Some m => (Some false, printed w m)
               | None => (None, w)
               end.
Proof.
  induction l as [|[i b] l IH]; intros w Hc Hl; [reflexivity|].
  inversion Hl as [|? ? Hi Hl']; subst. simpl in Hi.
  cbn [for_each first_failure_in]. unfold bind at 1.
  rewrite is_valid_body_run by exact Hi.
  destruct (block_failure t (chain (self w)) (i, b)); [reflexivity|].
  now apply IH.
Qed.

(** The run of [is_valid]: it always returns, reads the chain and
    prints at most the line of the first failure. *)
Lemma is_valid_run (w : world) :
  is_valid w
  = Returned match first_failure (self w) with
             | Some m => (false, printed w m)
             | None => (true, w)
             end.
Proof.
  unfold is_valid, first_failure, enumerate, bind at 1 2 3. simpl.
  rewrite (for_each_is_valid_run _ (chain (self w))); [|reflexivity|].
  - destruct (first_failure_in _ _ _); reflexivity.
  - eapply Forall_impl; [|apply enumerate_from_bound]. simpl. intros ib H. lia.
Qed.

(** C8. [is_valid] returns for every state of the chain and the console,
    leaves the chain object (the difficulty and every field of every
    block) as it found it, and, run again right after, returns the same
    result, again without touching the chain. *)
Theorem is_valid_reads_only_and_repeats (w : world) :
  exists (r : bool) (w1 w2 : world),
    is_valid w = Returned (r, w1)
    /\ self w1 = self w
    /\ difficulty (self w1) = difficulty (self w)
    /\ chain (self w1) = chain (self w)
    /\ is_valid w1 = Returned (r, w2)
    /\ self w2 = self w.
Proof.
  rewrite is_valid_run.
  destruct (first_failure (self w)) as [m|] eqn:E.
  - exists false, (printed w m), (printed (printed w m) m).
    repeat split. rewrite is_valid_run. simpl. now rewrite E.
  - exists true, w, w. repeat split. rewrite is_valid_run. now rewrite E.
Qed.

(** ** Runs of the chain operations *)

Lemma tip_run (w : world) (b : Block) (tl : list Block) :
  chain (self w) = b :: tl -> tip w = Returned (last tl b, w).
Proof. intros Hc. unfold tip, bind, read. now rewrite Hc. Qed.

Lemma tip_returned (w w' : world) (t : Block) :
  tip w = Returned (t, w') ->
  w' = w /\ exists b tl, chain (self w) = b :: tl /\ t = last tl b.
Proof.
  unfold tip, bind, read.
  destruct (chain (self w)) as [|b tl] eqn:Hc; [discriminate|].
  unfold ret. intros H. injection H as <- <-. split; [reflexivity|]. now exists b, tl.
Qed.

Lemma add_block_run (fuel : nat) (now : pyfloat) (payload : pydict) (w : world)
    (b : Block) (tl : list Block) :
  chain (self w) = b :: tl ->
  add_block fuel now payload w
  = match mine fuel (difficulty (self w))
            (Block_init now (index (last tl b) + 1) payload (hash (last tl b))) with
    | Returned nb => Returned (nb, appended w nb)
    | Raised e => Raised e
    | OutOfFuel => OutOfFuel
    end.
Proof.
  intros Hc. unfold add_block. unfold bind at 1. rewrite (tip_run _ _ _ Hc).
  unfold bind, read, lift, write_chain, print, ret.
  destruct (mine fuel _ _); reflexivity.
Qed.

(** At difficulty 0 every mining returns on its first test, so the
    constructor and [add_block] always return. *)
Lemma Blockchain_init_zero (fuel : nat) (now : pyfloat) :
  Blockchain_init (S fuel) now 0
  = Returned (mkChain 0 [Block_init now 0 genesis_data zeros64]).
Proof.
  unfold Blockchain_init, create_genesis. rewrite mine_zero.
  unfold Block_init at 1 2. rewrite compute_hash_set_hash. reflexivity.
Qed.

Lemma add_block_zero (fuel : nat) (now : pyfloat) (payload : pydict) (w : world)
    (b : Block) (tl : list Block) :
  difficulty (self w) = 0 ->
  chain (self w) = b :: tl ->
  let nb := Block_init now (index (last tl b) + 1) payload (hash (last tl b)) in
  add_block (S fuel) now payload w = Returned (nb, appended w nb).
Proof.
  intros Hd Hc nb. rewrite (add_block_run _ _ _ _ _ _ Hc), Hd, mine_zero.
  fold nb. unfold nb at 1 2, Block_init. rewrite compute_hash_set_hash.
  reflexivity.
Qed.

Lemma add_block_empty (fuel : nat) (now : pyfloat) (payload : pydict) (w : world) :
  chain (self w) = [] -> add_block fuel now payload w = Raised IndexError.
Proof.
  intros Hc. unfold add_block, tip, bind, read. now rewrite Hc.
Qed.

Lemma last_cons (x : Block) (tl : list Block) (d d' : Block) :
  last (x :: tl) d = last (x :: tl) d'.
Proof.
  revert x. induction tl as [|y tl IH]; intros x; [reflexivity|].
  change (last (y :: tl) d = last (y :: tl) d'). apply IH.
Qed.

Lemma nth_error_last (b : Block) (tl : list Block) :
  nth_error (b :: tl) (List.length tl) = Some (last tl b).
Proof.
  revert b. induction tl as [|x tl IH]; intros b; [reflexivity|].
  simpl List.length. change (nth_error (b :: x :: tl) (S (List.length tl)))
    with (nth_error (x :: tl) (List.length tl)).
  rewrite IH. f_equal.
  destruct tl as [|y tl]; [reflexivity|].
  change (last (y :: tl) x = last (y :: tl) b). apply last_cons.
Qed.

(** C4. On a chain whose tip is [t], [add_block(payload)] builds a block
    with index [t.index + 1], the payload, previous hash [t.hash] and
    nonce 0, mines it to the chain's difficulty, and, exactly when that
    mining returns a block, appends it as the last element, the chain
    growing by one and nothing else in it changing, and returns it. *)
Theorem add_block_appends_mined_successor
    (fuel : nat) (now : pyfloat) (payload : pydict) (w : world) (t : Block) :
  tip w = Returned (t, w) ->
  let new_block := Block_init now (index t + 1) payload (hash t) in
  index new_block = index t + 1
  /\ data new_block = payload
  /\ previous_hash new_block = hash t
  /\ nonce new_block = 0
  /\ forall nb w',
       add_block fuel now payload w = Returned (nb, w') <->
       mine fuel (difficulty (self w)) new_block = Returned nb
       /\ difficulty (self w') = difficulty (self w)
       /\ chain (self w') = (chain (self w) ++ [nb])%list
       /\ List.length (chain (self w')) = S (List.length (chain (self w)))
       /\ tip w' = Returned (nb, w')
       /\ stdout w' = (stdout w ++ [mined_line nb])%list.
Proof.
  intros Ht new_block.
  apply tip_returned in Ht as (_ & b & tl & Hc & ->).
  repeat (split; [reflexivity|]).
  intros nb w'. rewrite (add_block_run _ _ _ _ _ _ Hc). fold new_block.
  split.
  - destruct (mine fuel _ new_block) as [nb0| |]; try discriminate.
    intros H. injection H as <- <-. simpl.
    split; [reflexivity|]. split; [reflexivity|]. split; [reflexivity|].
    split; [rewrite length_app; simpl; lia|]. split; [|reflexivity].
    unfold tip, bind, read, appended. simpl. rewrite Hc. simpl.
    unfold ret. f_equal. f_equal.
    destruct tl; [reflexivity|]. apply (last_last (b0 :: tl)).
  - intros (Hm & Hd & Hch & _ & _ & Hout). rewrite Hm.
    destruct w' as [[d' c'] out']. simpl in *. subst. reflexivity.
Qed.

(** ** Chains the program can build *)

Lemma first_failure_in_app (t : string) (c : list Block) (l1 l2 : list (nat * Block)) :
  first_failure_in t c (l1 ++ l2)%list
  = match first_failure_in t c l1 with
    | Some m => Some m
    | None => first_failure_in t c l2
    end.
Proof.
  induction l1 as [|ib l1 IH]; simpl; [reflexivity|].
  destruct (block_failure t c ib); [reflexivity|exact IH].
Qed.

(** The checks of block [i] look at the chain only below [i]. *)
Lemma block_failure_prefix (t : string) (pre l1 l2 : list Block) (i : nat) (b : Block) :
  (i <= List.length pre)%nat ->
  block_failure t (pre ++ l1)%list (i, b) = block_failure t (pre ++ l2)%list (i, b).
Proof.
  intros Hi. unfold block_failure.
  destruct i as [|j]; [reflexivity|].
  now rewrite !nth_error_app1 by lia.
Qed.

Lemma first_failure_in_prefix (t : string) (pre l1 l2 : list Block) :
  forall l, Forall (fun ib => (fst ib <= List.length pre)%nat) l ->
    first_failure_in t (pre ++ l1)%list l = first_failure_in t (pre ++ l2)%list l.
Proof.
  induction l as [|[i b] l IH]; intros Hl; [reflexivity|].
  inversion Hl as [|? ? Hi Hl']; subst. simpl in Hi.
  cbn [first_failure_in]. rewrite (block_failure_prefix t pre l1 l2) by exact Hi.
  destruct (block_failure _ _ _); [reflexivity|]. now apply IH.
Qed.

Lemma block_failure_none (t : string) (c : list Block) (i : nat) (b : Block) :
  hash b = compute_hash b ->
  startswith (hash b) t = true ->
  match i with
  | O => previous_hash b = zeros64
  | S j => exists prev, nth_error c j = Some prev /\ previous_hash b = hash prev
  end ->
  block_failure t c (i, b) = None.
Proof.
  intros Hh Hs Hl. unfold block_failure.
  apply String.eqb_eq in Hh. rewrite Hh, Hs. simpl.
  destruct i as [|j].
  - apply String.eqb_eq in Hl. now rewrite Hl.
  - destruct Hl as (prev & -> & Hp). apply String.eqb_eq in Hp. now rewrite Hp.
Qed.

Lemma passes_genesis (d : Z) (g : Block) :
  hash g = compute_hash g ->
  startswith (hash g) (str_repeat "0" d) = true ->
  previous_hash g = zeros64 ->
  passes (mkChain d [g]).
Proof.
  intros Hh Hs Hp. unfold passes, first_failure, enumerate.
  cbn [chain difficulty enumerate_from first_failure_in].
  now rewrite block_failure_none.
Qed.

Lemma passes_append (d : Z) (b : Block) (tl : list Block) (nb : Block) :
  passes (mkChain d (b :: tl)) ->
  hash nb = compute_hash nb ->
  startswith (hash nb) (str_repeat "0" d) = true ->
  previous_hash nb = hash (last tl b) ->
  passes (mkChain d ((b :: tl) ++ [nb])%list).
Proof.
  pose proof (nth_error_last b tl) as Hlast.
  assert (Hlen : List.length (b :: tl) = S (List.length tl)) by reflexivity.
  revert Hlast Hlen. generalize (b :: tl) as c. intros c Hlast Hlen.
  unfold passes, first_failure, enumerate. cbn [chain difficulty].
  intros Hv Hh Hs Hp.
  rewrite enumerate_from_app, first_failure_in_app.
  rewrite (first_failure_in_prefix _ c [nb] []).
  - rewrite app_nil_r, Hv. cbn [enumerate_from first_failure_in].
    rewrite block_failure_none; try assumption; [reflexivity|].
    rewrite Nat.add_0_l, Hlen. exists (last tl b). split; [|exact Hp].
    rewrite nth_error_app1 by lia. exact Hlast.
  - eapply Forall_impl; [|apply enumerate_from_bound]. simpl. intros ib H. lia.
Qed.

Lemma Blockchain_init_returned (fuel : nat) (now : pyfloat) (d : Z) (bc : Blockchain) :
  Blockchain_init fuel now d = Returned bc ->
  exists g, bc = mkChain d [g]
    /\ mine fuel d (Block_init now 0 genesis_data zeros64) = Returned g.
Proof.
  unfold Blockchain_init, create_genesis.
  destruct (mine fuel d _) as [g| |]; try discriminate.
  intros H. injection H as <-. now exists g.
Qed.

Lemma mine_returned (fuel : nat) (d : Z) (b b' : Block) :
  mine fuel d b = Returned b' ->
  hash b' = compute_hash b'
  /\ startswith (hash b') (str_repeat "0" d) = true
  /\ same_content b b'.
Proof.
  intros H. pose proof (mine_returned_nonneg _ _ _ _ H) as Hd.
  rewrite mine_nonneg in H by assumption.
  apply mine_loop_returned in H as (Hh & Hs & Hc & _).
  split; [exact Hh|]. split; [exact Hs|exact Hc].
Qed.

Lemma reachable_untouched_passes (w : world) :
  reachable false w -> passes (self w) /\ chain (self w) <> [].
Proof.
  induction 1 as [fuel now d bc out Hi | w fuel now payload nb w' Hr IH Ha
                 | w r w' Hr IH Hv | w i key v w' Ht Hr IH Hm].
  - apply Blockchain_init_returned in Hi as (g & -> & Hm).
    apply mine_returned in Hm as (Hh & Hs & Hc). simpl.
    split; [|discriminate].
    apply passes_genesis; try assumption. apply Hc.
  - destruct IH as (Hp & Hne).
    destruct (chain (self w)) as [|b tl] eqn:Hc; [congruence|].
    rewrite (add_block_run _ _ _ _ _ _ Hc) in Ha.
    destruct (mine fuel _ _) as [nb0| |] eqn:Hm; try discriminate.
    injection Ha as <- <-.
    apply mine_returned in Hm as (Hh & Hs & Hcn). simpl. rewrite Hc.
    split; [|discriminate].
    apply passes_append; try assumption.
    + destruct w as [[d c] out]. simpl in *. now subst c.
    + destruct Hcn as (_ & _ & _ & Hq). exact Hq.
  - rewrite is_valid_run in Hv. destruct IH as (Hp & Hne).
    unfold passes in Hp. rewrite Hp in Hv. now injection Hv as <- <-.
  - discriminate.
Qed.

(** C3. On every chain made by the constructor and then changed by
    [add_block] calls only, whatever the payloads, the clock readings
    and the difficulty, [is_valid] returns [True], prints nothing and
    leaves the chain as it is. *)
Theorem is_valid_true_on_untouched_chain (w : world) :
  reachable false w -> is_valid w = Returned (true, w).
Proof.
  intros Hr. apply reachable_untouched_passes in Hr as (Hp & _).
  rewrite is_valid_run. unfold passes in Hp. now rewrite Hp.
Qed.

(** ** Tampering *)

Lemma update_nth_app {A} (f : A -> A) (pre : list A) (x : A) (post : list A) :
  update_nth (List.length pre) f (pre ++ x :: post)%list = (pre ++ f x :: post)%list.
Proof. induction pre as [|y pre IH]; simpl; [reflexivity|now rewrite IH]. Qed.

Lemma update_nth_head (f : Block -> Block) (n : nat) (g : Block) (rest : list Block) :
  (forall b, previous_hash (f b) = previous_hash b) ->
  exists g' rest', update_nth n f (g :: rest) = g' :: rest'
                   /\ previous_hash g' = previous_hash g.
Proof.
  intros Hf. destruct n as [|n]; simpl; eauto.
Qed.

Lemma dict_set_same (key : string) (v : json) (d : pydict) :
  dict_get key d = Some v -> dict_set key v d = d.
Proof.
  induction d as [|[k v'] d IH]; simpl; [discriminate|].
  destruct (k =? key); intros H.
  - now injection H as ->.
  - now rewrite IH.
Qed.

Lemma set_data_same (b : Block) : set_data b (data b) = b.
Proof. destruct b; reflexivity. Qed.

(** The run of menu entry 4 on an index in range. *)
Lemma tamper_run (i : Z) (key v : string) (w : world)
    (pre : list Block) (b : Block) (post : list Block) :
  chain (self w) = (pre ++ b :: post)%list ->
  0 <= i -> Z.to_nat i = List.length pre ->
  tamper i key v w
  = Returned (tt,
      if dict_contains key (data b)
      then printed (mkWorld (mkChain (difficulty (self w))
                                     (pre ++ tampered key v b :: post)%list)
                            (stdout w))
                   (BlockModified i)
      else printed w InvalidField).
Proof.
  intros Hc Hi Hn. unfold tamper, bind at 1, read. rewrite Hc.
  assert (Hr : ((0 <=? i) && (i <? Z.of_nat (List.length (pre ++ b :: post))))%Z = true).
  { rewrite length_app. simpl. apply andb_true_iff. split; [lia|].
    apply Z.ltb_lt. lia. }
  rewrite Hr. unfold bind at 1, item.
  rewrite Hn, nth_error_app2, Nat.sub_diag by lia. simpl.
  destruct (dict_contains key (data b)); [|reflexivity].
  unfold bind, write_chain, print, printed. simpl.
  now rewrite update_nth_app.
Qed.

(** Whatever menu entry 4 does, the chain is left as it is or one block
    has its payload updated. *)
Lemma tamper_returned (i : Z) (key v : string) (w w' : world) :
  tamper i key v w = Returned (tt, w') ->
  difficulty (self w') = difficulty (self w)
  /\ (chain (self w') = chain (self w)
      \/ exists n, chain (self w') = update_nth n (tampered key v) (chain (self w))).
Proof.
  unfold tamper, bind at 1, read.
  destruct ((0 <=? i) && (i <? Z.of_nat (List.length (chain (self w)))))%Z.
  - unfold bind at 1, item.
    destruct (nth_error (chain (self w)) (Z.to_nat i)) as [b|]; [|discriminate].
    simpl. destruct (dict_contains key (data b)).
    + unfold bind, write_chain, print. simpl. intros H. injection H as <-.
      simpl. split; [reflexivity|]. right. now exists (Z.to_nat i).
    + unfold print. intros H. injection H as <-. simpl. auto.
  - unfold print. intros H. injection H as <-. simpl. auto.
Qed.



(** ** The sample chain *)

Example sample_world0_init :
  Blockchain_init 3 sample_time 1 = Returned (self sample_world0).
Proof. vm_compute. reflexivity. Qed.

Example sample_world_added :
  add_block 11 sample_time2 sample_payload sample_world0
  = Returned (sample_second, sample_world).
Proof. vm_compute. reflexivity. Qed.

Lemma sample_world_reachable (tampering : bool) : reachable tampering sample_world.
Proof.
  eapply reach_add; [|exact sample_world_added].
  exact (reach_init tampering 3 sample_time 1 _ [] sample_world0_init).
Qed.

Lemma is_valid_true_on_untouched_chain_witness :
  reachable false sample_world
  /\ is_valid sample_world = Returned (true, sample_world).
Proof.
  assert (Hr : reachable false sample_world) by apply sample_world_reachable.
  split; [exact Hr|].
  exact (is_valid_true_on_untouched_chain sample_world Hr).
Defined.

Lemma add_block_appends_mined_successor_witness :
  tip sample_world0 = Returned (sample_mined, sample_world0)
  /\ chain (self sample_world) = (chain (self sample_world0) ++ [sample_second])%list
  /\ mine 11 1 (Block_init sample_time2 (index sample_mined + 1) sample_payload
                  (hash sample_mined)) = Returned sample_second.
Proof.
  assert (Ht : tip sample_world0 = Returned (sample_mined, sample_world0))
    by reflexivity.
  split; [exact Ht|].
  destruct (add_block_appends_mined_successor 11 sample_time2 sample_payload
              sample_world0 sample_mined Ht) as (_ & _ & _ & _ & Hrun).
  destruct (proj1 (Hrun sample_second sample_world) sample_world_added)
    as (Hm & _ & Hc & _).
  split; [exact Hc|exact Hm].
Defined.




(** ** The genesis link *)

Lemma reachable_genesis_linked (tampering : bool) (w : world) :
  reachable tampering w -> genesis_linked (self w).
Proof.
  induction 1 as [fuel now d bc out Hi | w fuel now payload nb w' Hr IH Ha
                 | w r w' Hr IH Hv | w i key v w' Ht Hr IH Hm].
  - apply Blockchain_init_returned in Hi as (g & -> & Hm).
    apply mine_returned in Hm as (_ & _ & Hc).
    exists g, []. split; [reflexivity|]. apply Hc.
  - destruct IH as (g & rest & Hc & Hp).
    rewrite (add_block_run _ _ _ _ _ _ Hc) in Ha.
    destruct (mine fuel _ _) as [nb0| |]; try discriminate.
    injection Ha as <- <-. exists g, (rest ++ [nb0])%list.
    simpl. rewrite Hc. now split.
  - rewrite is_valid_run in Hv.
    destruct (first_failure (self w)); injection Hv as <- <-; exact IH.
  - destruct IH as (g & rest & Hc & Hp).
    apply tamper_returned in Hm as (_ & [Hsame | (n & Hupd)]).
    + exists g, rest. now rewrite Hsame.
    + rewrite Hc in Hupd.
      destruct (update_nth_head (tampered key v) n g rest) as (g' & rest' & Hu & Hq);
        [reflexivity|].
      exists g', rest'. rewrite Hupd, Hu, Hq. now split.
Qed.

(** C5, as stated, fails: on the chain made of the sample genesis block
    with its previous hash emptied and its stored hash left as it was,
    element 0 has another previous hash than the 64 zeros, and the
    failure [is_valid] reports is the hash mismatch of block 0, not the
    genesis link. *)
Lemma unlinked_genesis_reported_as_hash_mismatch :
  nth_error (chain (self sample_unlinked_world)) 0 = Some sample_unlinked
  /\ previous_hash sample_unlinked <> zeros64
  /\ is_valid sample_unlinked_world
     = Returned (false, printed sample_unlinked_world (HashMismatch 0))
  /\ is_valid sample_unlinked_world
     <> Returned (false, printed sample_unlinked_world GenesisIncorrect).
Proof.
  split; [reflexivity|]. split; [discriminate|].
  assert (H : is_valid sample_unlinked_world
              = Returned (false, printed sample_unlinked_world (HashMismatch 0)))
    by (vm_compute; reflexivity).
  split; [exact H|]. rewrite H. vm_compute. discriminate.
Qed.

(** C5, amended. On every chain the program builds, by the constructor,
    [add_block] and tampering, element 0 has the 64 zeros as previous
    hash; and on any chain whose element 0 has another previous hash,
    [is_valid] returns [False] at block 0: for the genesis link when the
    stored hash of that block is the digest of its header and meets the
    difficulty, and otherwise for the check that fails before it, the
    hash mismatch or the difficulty target. *)
Theorem genesis_previous_hash_checked :
  (forall tampering w, reachable tampering w ->
     exists g rest, chain (self w) = g :: rest
                    /\ previous_hash g = str_repeat "0" 64)
  /\ (forall w g rest,
        chain (self w) = g :: rest ->
        previous_hash g <> str_repeat "0" 64 ->
        is_valid w
        = Returned (false, printed w
            (if negb (hash g =? compute_hash g) then HashMismatch 0
             else if negb (startswith (hash g) (str_repeat "0" (difficulty (self w))))
                  then DifficultyFail 0
                  else GenesisIncorrect))).
Proof.
  split.
  - intros tampering w Hr. exact (reachable_genesis_linked tampering w Hr).
  - intros w g rest Hc Hp. rewrite is_valid_run.
    unfold first_failure, enumerate. rewrite Hc.
    cbn [enumerate_from first_failure_in]. unfold block_failure.
    destruct (negb (hash g =? compute_hash g)); [reflexivity|].
    destruct (negb (startswith (hash g) _)); [reflexivity|].
    apply String.eqb_neq in Hp. fold zeros64 in Hp. now rewrite Hp.
Qed.

Lemma genesis_previous_hash_checked_witness :
  reachable true sample_world
  /\ previous_hash sample_mined = str_repeat "0" 64
  /\ previous_hash sample_relinked <> str_repeat "0" 64
  /\ is_valid (mkWorld (mkChain 0 [sample_relinked]) [])
     = Returned (false, mkWorld (mkChain 0 [sample_relinked]) [GenesisIncorrect]).
Proof.
  assert (Hr : reachable true sample_world) by apply sample_world_reachable.
  assert (Hp : previous_hash sample_relinked <> str_repeat "0" 64)
    by (vm_compute; discriminate).
  destruct genesis_previous_hash_checked as (H1 & H2).
  split; [exact Hr|]. split; [reflexivity|]. split; [exact Hp|].
  rewrite (H2 (mkWorld (mkChain 0 [sample_relinked]) []) sample_relinked []
              eq_refl Hp).
  vm_compute. reflexivity.
Defined.

(** * Further properties of the code *)

(** ** The digest text *)


Lemma hexdigest_length (bs : list Z) :
  String.length (hexdigest bs) = (2 * List.length bs)%nat.
Proof. induction bs as [|b bs IH]; simpl; [reflexivity|]. rewrite IH. lia. Qed.


Lemma be_bytes_length (w : nat) (x : Z) : List.length (Sha256.be_bytes w x) = w.
Proof. induction w as [|w IH]; simpl; [reflexivity|now rewrite IH]. Qed.


Lemma blocks_length (n : nat) :
  forall h bs, List.length h = 8%nat -> List.length (Sha256.blocks n h bs) = 8%nat.
Proof.
  induction n as [|n IH]; intros h bs Hh; simpl; [exact Hh|].
  apply IH. reflexivity.
Qed.

Lemma digest_length (msg : list Z) : List.length (Sha256.digest msg) = 32%nat.
Proof.
  unfold Sha256.digest.
  pose proof (blocks_length (Nat.div (List.length (Sha256.pad msg)) 64)
                Sha256.H0 (Sha256.pad msg) eq_refl) as H8.
  destruct (Sha256.blocks _ Sha256.H0 (Sha256.pad msg))
    as [|a [|b [|c [|d [|e [|f [|g [|h [|i l]]]]]]]]]; try discriminate.
  simpl. reflexivity.
Qed.


Lemma sha256_hex_length (s : string) : String.length (sha256_hex s) = 64%nat.
Proof. unfold sha256_hex. now rewrite hexdigest_length, digest_length. Qed.


(** ** Mining: when it returns and when it cannot *)

Lemma startswith_length (p : string) :
  forall s, startswith s p = true -> (String.length p <= String.length s)%nat.
Proof.
  induction p as [|c p IH]; intros s H; simpl; [lia|].
  destruct s as [|c' s]; [discriminate|].
  simpl in H. apply andb_true_iff in H as [_ H]. apply IH in H. simpl. lia.
Qed.

Lemma str_repeat_length (c : ascii) (d : Z) :
  String.length (str_repeat c d) = Z.to_nat d.
Proof.
  unfold str_repeat. induction (Z.to_nat d) as [|n IH]; simpl; [reflexivity|].
  now rewrite IH.
Qed.

Lemma mine_loop_prefix_too_long (t : string) :
  (64 < String.length t)%nat ->
  forall fuel b, mine_loop fuel t b = OutOfFuel.
Proof.
  intros Ht. induction fuel as [|fuel IH]; intros b; simpl; [reflexivity|].
  destruct (startswith (compute_hash b) t) eqn:Hs; [|apply IH].
  apply startswith_length in Hs. unfold compute_hash in Hs.
  rewrite sha256_hex_length in Hs. lia.
Qed.

(** X2. A difficulty above 64 asks for more zeros than a digest has
    characters: [mine] never returns, however long it runs, and neither
    does the construction of a chain with such a difficulty. *)
Theorem mine_above_64_never_returns (fuel : nat) (d : Z) (b : Block) :
  64 < d ->
  mine fuel d b = OutOfFuel
  /\ forall now, Blockchain_init fuel now d = OutOfFuel.
Proof.
  intros Hd.
  assert (H : forall b0, mine fuel d b0 = OutOfFuel).
  { intros b0. rewrite mine_nonneg by lia. apply mine_loop_prefix_too_long.
    rewrite str_repeat_length. lia. }
  split; [apply H|].
  intros now. unfold Blockchain_init, create_genesis. now rewrite H.
Qed.

Lemma mine_above_64_never_returns_witness :
  64 < 65 /\ mine 2 65 sample_block = OutOfFuel.
Proof.
  assert (Hd : 64 < 65) by lia.
  split; [exact Hd|].
  exact (proj1 (mine_above_64_never_returns 2 65 sample_block Hd)).
Defined.

Lemma mine_loop_finds (t : string) :
  forall k b,
    startswith (compute_hash (set_nonce b (nonce b + Z.of_nat k))) t = true ->
    exists b', mine_loop (S k) t b = Returned b'
               /\ nonce b' <= nonce b + Z.of_nat k.
Proof.
  induction k as [|k IH]; intros b H.
  - rewrite Z.add_0_r, set_nonce_self in H. simpl. rewrite H.
    eexists. split; [reflexivity|]. simpl. lia.
  - cbn [mine_loop].
    destruct (startswith (hash (set_hash b (compute_hash b))) t) eqn:Hs.
    + eexists. split; [reflexivity|]. simpl. lia.
    + destruct (IH (set_nonce (set_hash b (compute_hash b))
                              (nonce (set_hash b (compute_hash b)) + 1)))
        as (b' & Hb' & Hn).
      * simpl nonce.
        replace (nonce b + 1 + Z.of_nat k) with (nonce b + Z.of_nat (S k)) by lia.
        exact H.
      * exists b'. split; [exact Hb'|]. simpl nonce in Hn. lia.
Qed.

(** X3. [mine(d)] returns exactly when [d >= 0] and some nonce from the
    block's current one upwards gives a digest with [d] leading zeros;
    if nonce [m] is such a one, the loop returns within
    [m - nonce + 1] iterations, on a nonce no larger than [m]. *)
Theorem mine_returns_iff_some_nonce_fits (d : Z) (b : Block) :
  ((exists fuel b', mine fuel d b = Returned b')
   <-> 0 <= d
       /\ exists m, nonce b <= m
            /\ startswith (sha256_hex (header_string (set_nonce b m)))
                 (str_repeat "0" d) = true)
  /\ forall m, 0 <= d -> nonce b <= m ->
       startswith (sha256_hex (header_string (set_nonce b m)))
         (str_repeat "0" d) = true ->
       exists b', mine (S (Z.to_nat (m - nonce b))) d b = Returned b'
                  /\ nonce b' <= m.
Proof.
  assert (Hfind : forall m, 0 <= d -> nonce b <= m ->
            startswith (sha256_hex (header_string (set_nonce b m)))
              (str_repeat "0" d) = true ->
            exists b', mine (S (Z.to_nat (m - nonce b))) d b = Returned b'
                       /\ nonce b' <= m).
  { intros m Hd Hm Hs. rewrite mine_nonneg by assumption.
    destruct (mine_loop_finds (str_repeat "0" d) (Z.to_nat (m - nonce b)) b)
      as (b' & Hb' & Hn).
    - replace (nonce b + Z.of_nat (Z.to_nat (m - nonce b))) with m by lia.
      exact Hs.
    - exists b'. split; [exact Hb'|]. lia. }
  split; [|exact Hfind]. split.
  - intros (fuel & b' & H).
    pose proof (mine_returned_nonneg _ _ _ _ H) as Hd. split; [exact Hd|].
    rewrite mine_nonneg in H by assumption.
    apply mine_loop_returned in H as (Hh & Hs & Hc & Hn & _).
    exists (nonce b'). split; [exact Hn|].
    assert (He : compute_hash b' = compute_hash (set_nonce b (nonce b')))
      by (apply compute_hash_same_content; [exact Hc|reflexivity]).
    unfold compute_hash in He. rewrite <- He. rewrite Hh in Hs. exact Hs.
  - intros (Hd & m & Hm & Hs).
    destruct (Hfind m Hd Hm Hs) as (b' & Hb' & _). eauto.
Qed.

Lemma mine_returns_iff_some_nonce_fits_witness :
  0 <= 1 /\ nonce sample_block <= 2
  /\ startswith (sha256_hex (header_string (set_nonce sample_block 2)))
       (str_repeat "0" 1) = true
  /\ exists b', mine 3 1 sample_block = Returned b' /\ nonce b' <= 2.
Proof.
  assert (Hd : 0 <= 1) by lia.
  assert (Hm : nonce sample_block <= 2) by (simpl; lia).
  assert (Hs : startswith (sha256_hex (header_string (set_nonce sample_block 2)))
                 (str_repeat "0" 1) = true) by (vm_compute; reflexivity).
  split; [exact Hd|]. split; [exact Hm|]. split; [exact Hs|].
  exact (proj2 (mine_returns_iff_some_nonce_fits 1 sample_block) 2 Hd Hm Hs).
Defined.

(** ** The header and the nonce *)

Lemma string_app_inv_head (a x y : string) : a ++ x = a ++ y -> x = y.
Proof.
  induction a as [|c a IH]; simpl; intros H; [exact H|].
  injection H as H. now apply IH.
Qed.

Lemma str_of_int_inj (n m : Z) : str_of_int n = str_of_int m -> n = m.
Proof.
  unfold str_of_int. intros H.
  assert (Hn : forall z, NilZero.int_of_string (NilZero.string_of_int (Z.to_int z))
                         = Some (Z.to_int z)).
  { intros z. apply NilZero.isi; destruct z; simpl; try discriminate;
      intros E; injection E as E; revert E; apply DecimalPos.Unsigned.to_uint_nonnil. }
  apply DecimalZ.to_int_inj.
  pose proof (Hn n) as H1. rewrite H, Hn in H1. now injection H1.
Qed.

(** X4. Two different nonces never give the same header: every attempt
    of the mining loop hashes a text no earlier attempt has hashed. *)
Theorem header_string_differs_with_nonce (b : Block) (n m : Z) :
  n <> m -> header_string (set_nonce b n) <> header_string (set_nonce b m).
Proof.
  intros Hne H. apply Hne. unfold header_string, set_nonce in H.
  cbn [index timestamp data previous_hash nonce] in H.
  do 8 apply string_app_inv_head in H. now apply str_of_int_inj.
Qed.

Lemma header_string_differs_with_nonce_witness :
  0 <> 1
  /\ header_string (set_nonce sample_block 0) <> header_string (set_nonce sample_block 1).
Proof.
  assert (Hne : 0 <> 1) by lia.
  split; [exact Hne|].
  exact (header_string_differs_with_nonce sample_block 0 1 Hne).
Defined.

(** ** What [is_valid] decides *)

Lemma nth_error_enumerate_from {A} (l : list A) :
  forall k i x, In (i, x) (enumerate_from k l)
                <-> (k <= i)%nat /\ nth_error l (i - k) = Some x.
Proof.
  induction l as [|y l IH]; intros k i x; simpl.
  - split; [contradiction|]. intros (_ & H). destruct (i - k)%nat; discriminate.
  - rewrite IH. split.
    + intros [H | (Hk & H)].
      * injection H as <- <-. rewrite Nat.sub_diag. split; [lia|reflexivity].
      * split; [lia|]. replace (i - k)%nat with (S (i - S k)) by lia. exact H.
    + intros (Hk & H). destruct (i - k)%nat as [|n] eqn:E.
      * left. injection H as <-. f_equal. lia.
      * right. split; [lia|]. replace (i - S k)%nat with n by lia. exact H.
Qed.

Lemma block_failure_none_iff (t : string) (c : list Block) (i : nat) (b : Block) :
  (i <= List.length c)%nat ->
  block_failure t c (i, b) = None <-> block_ok t c i b.
Proof.
  intros Hi. unfold block_failure, block_ok.
  destruct (String.eqb_spec (hash b) (compute_hash b)) as [Hh|Hh]; simpl.
  2: { split; [discriminate|]. intros (H & _). contradiction. }
  destruct (startswith (hash b) t); simpl.
  2: { split; [discriminate|]. intros (_ & H & _). discriminate. }
  destruct i as [|j].
  - destruct (String.eqb_spec (previous_hash b) zeros64) as [Hp|Hp]; simpl.
    + tauto.
    + split; [discriminate|]. intros (_ & _ & H). contradiction.
  - destruct (nth_error c j) as [prev|] eqn:E.
    + destruct (String.eqb_spec (previous_hash b) (hash prev)) as [Hp|Hp]; simpl.
      * split; [|reflexivity]. intros _. repeat split; try assumption. now exists prev.
      * split; [discriminate|]. intros (_ & _ & prev' & H1 & H2). congruence.
    + apply nth_error_None in E. lia.
Qed.

Lemma block_failure_some (t : string) (c : list Block) (i : nat) (b : Block)
    (m : message) :
  block_failure t c (i, b) = Some m -> fails_with t c i b m.
Proof.
  unfold block_failure, fails_with.
  destruct (String.eqb_spec (hash b) (compute_hash b)) as [Hh|Hh]; simpl.
  2: { intros H. injection H as <-. left. now split. }
  destruct (startswith (hash b) t); simpl.
  2: { intros H. injection H as <-. right. left. now repeat split. }
  destruct i as [|j].
  - destruct (String.eqb_spec (previous_hash b) zeros64) as [Hp|Hp]; simpl;
      [discriminate|].
    intros H. injection H as <-. right. right. left. now repeat split.
  - destruct (nth_error c j) as [prev|] eqn:E; [|discriminate].
    destruct (String.eqb_spec (previous_hash b) (hash prev)) as [Hp|Hp]; simpl;
      [discriminate|].
    intros H. injection H as <-. right. right. right.
    repeat split; try assumption. now exists j, prev.
Qed.

Lemma first_failure_in_none_iff (t : string) (c : list Block) (l : list (nat * Block)) :
  first_failure_in t c l = None
  <-> forall ib, In ib l -> block_failure t c ib = None.
Proof.
  induction l as [|ib l IH]; simpl.
  - split; [intros _ ib []|reflexivity].
  - destruct (block_failure t c ib) eqn:E.
    + split; [discriminate|]. intros H. rewrite (H ib) in E by now left. discriminate.
    + rewrite IH. split.
      * intros H ib' [<- | Hin]; [exact E|now apply H].
      * intros H ib' Hin. apply H. now right.
Qed.

Lemma first_failure_in_some (t : string) (c : list Block) :
  forall l k m, first_failure_in t c (enumerate_from k l) = Some m ->
    exists pre b post,
      l = (pre ++ b :: post)%list
      /\ first_failure_in t c (enumerate_from k pre) = None
      /\ block_failure t c (k + List.length pre, b)%nat = Some m.
Proof.
  induction l as [|b l IH]; intros k m H; [discriminate|].
  cbn [enumerate_from first_failure_in] in H.
  destruct (block_failure t c (k, b)) as [m'|] eqn:E.
  - injection H as <-. exists [], b, l. simpl. rewrite Nat.add_0_r. now repeat split.
  - apply IH in H as (pre & b' & post & -> & Hpre & Hb').
    exists (b :: pre), b', post. split; [reflexivity|]. split.
    + cbn [enumerate_from first_failure_in]. now rewrite E.
    + simpl List.length. now replace (k + S (List.length pre))%nat
        with (S k + List.length pre)%nat by lia.
Qed.

Lemma passes_iff_all_ok (bc : Blockchain) :
  passes bc
  <-> forall i b, nth_error (chain bc) i = Some b ->
        block_ok (str_repeat "0" (difficulty bc)) (chain bc) i b.
Proof.
  unfold passes, first_failure, enumerate. rewrite first_failure_in_none_iff.
  split.
  - intros H i b Hn. apply block_failure_none_iff.
    + apply Nat.lt_le_incl. apply nth_error_Some. congruence.
    + apply H. apply nth_error_enumerate_from. rewrite Nat.sub_0_r. split; [lia|exact Hn].
  - intros H [i b] Hin. apply nth_error_enumerate_from in Hin as (_ & Hn).
    rewrite Nat.sub_0_r in Hn. apply block_failure_none_iff.
    + apply Nat.lt_le_incl. apply nth_error_Some. congruence.
    + now apply H.
Qed.

(** X5. [is_valid] returns [True] exactly when every block of the chain
    has a stored hash equal to the digest of its header and beginning
    with the zeros of the difficulty, block 0 carries the 64 zeros as
    previous hash and every other block the stored hash of the block
    before it; it then prints nothing. *)
Theorem is_valid_true_iff_every_block_ok (w : world) :
  (is_valid w = Returned (true, w)
   <-> forall i b, nth_error (chain (self w)) i = Some b ->
         block_ok (str_repeat "0" (difficulty (self w))) (chain (self w)) i b)
  /\ forall w', is_valid w = Returned (true, w') -> w' = w.
Proof.
  rewrite <- passes_iff_all_ok, is_valid_run. unfold passes.
  destruct (first_failure (self w)) as [m|]; split.
  - split; discriminate.
  - discriminate.
  - split; reflexivity.
  - intros w' H. now injection H as <-.
Qed.

Lemma is_valid_false_first_failure (w w' : world) :
  is_valid w = Returned (false, w') ->
  exists i b m,
    w' = printed w m
    /\ nth_error (chain (self w)) i = Some b
    /\ fails_with (str_repeat "0" (difficulty (self w))) (chain (self w)) i b m
    /\ forall j b', (j < i)%nat -> nth_error (chain (self w)) j = Some b' ->
         block_ok (str_repeat "0" (difficulty (self w))) (chain (self w)) j b'.
Proof.
  rewrite is_valid_run.
  destruct (first_failure (self w)) as [m|] eqn:E; [|discriminate].
  intros H. injection H as <-.
  unfold first_failure, enumerate in E.
  apply first_failure_in_some in E as (pre & b & post & Hc & Hpre & Hb).
  simpl in Hb. exists (List.length pre), b, m.
  split; [reflexivity|]. split.
  { rewrite Hc, nth_error_app2, Nat.sub_diag by lia. reflexivity. }
  split; [now apply block_failure_some|].
  intros j b' Hj Hn. apply block_failure_none_iff.
  - apply Nat.lt_le_incl. apply nth_error_Some. congruence.
  - rewrite first_failure_in_none_iff in Hpre. apply Hpre.
    apply nth_error_enumerate_from. rewrite Nat.sub_0_r. split; [lia|].
    rewrite Hc, nth_error_app1 in Hn by lia. exact Hn.
Qed.

(** X6. When [is_valid] returns [False] it has printed exactly one line:
    the one of the first check failed by the first block, in chain
    order, that fails a check; every block before that one passes all
    three checks, and the chain is left as it was. *)
Theorem is_valid_false_reports_first_failure (w w' : world) :
  is_valid w = Returned (false, w') ->
  exists i b m,
    w' = printed w m
    /\ nth_error (chain (self w)) i = Some b
    /\ fails_with (str_repeat "0" (difficulty (self w))) (chain (self w)) i b m
    /\ forall j b', (j < i)%nat -> nth_error (chain (self w)) j = Some b' ->
         block_ok (str_repeat "0" (difficulty (self w))) (chain (self w)) j b'.
Proof. exact (is_valid_false_first_failure w w'). Qed.

Lemma is_valid_false_reports_first_failure_witness :
  is_valid sample_unlinked_world
  = Returned (false, printed sample_unlinked_world (HashMismatch 0))
  /\ exists i b m,
       printed sample_unlinked_world (HashMismatch 0) = printed sample_unlinked_world m
       /\ nth_error (chain (self sample_unlinked_world)) i = Some b
       /\ fails_with (str_repeat "0" (difficulty (self sample_unlinked_world)))
            (chain (self sample_unlinked_world)) i b m.
Proof.
  assert (H : is_valid sample_unlinked_world
              = Returned (false, printed sample_unlinked_world (HashMismatch 0)))
    by (vm_compute; reflexivity).
  split; [exact H|].
  destruct (is_valid_false_reports_first_failure _ _ H) as (i & b & m & H1 & H2 & H3 & _).
  exists i, b, m. split; [exact H1|]. split; [exact H2|exact H3].
Defined.

(** ** What holds of every chain the program builds *)

Lemma nth_error_update_nth {A} (f : A -> A) (l : list A) :
  forall n i, nth_error (update_nth n f l) i
              = if Nat.eqb i n then option_map f (nth_error l i) else nth_error l i.
Proof.
  induction l as [|x l IH]; intros n i; simpl.
  - destruct (Nat.eqb i n); destruct n, i; reflexivity.
  - destruct n as [|n], i as [|i]; simpl; try reflexivity. apply IH.
Qed.

Lemma update_nth_length {A} (f : A -> A) (l : list A) :
  forall n, List.length (update_nth n f l) = List.length l.
Proof.
  induction l as [|x l IH]; intros n; [destruct n; reflexivity|].
  destruct n; simpl; [reflexivity|now rewrite IH].
Qed.

Lemma skeleton_tampered (key v : string) (b : Block) :
  skeleton (tampered key v b) = skeleton b.
Proof. reflexivity. Qed.

(** A block of the updated chain is the block of the old chain at the
    same place, but for the payload. *)
Lemma nth_error_update_tampered (key v : string) (n : nat) (c : list Block)
    (i : nat) (b' : Block) :
  nth_error (update_nth n (tampered key v) c) i = Some b' ->
  exists b, nth_error c i = Some b /\ skeleton b' = skeleton b.
Proof.
  rewrite nth_error_update_nth.
  destruct (Nat.eqb i n); [|intros H; now exists b'].
  destruct (nth_error c i) as [b|]; [|discriminate].
  simpl. intros H. injection H as <-. now exists b.
Qed.

Lemma nth_error_update_tampered_inv (key v : string) (n : nat) (c : list Block)
    (i : nat) (b : Block) :
  nth_error c i = Some b ->
  exists b', nth_error (update_nth n (tampered key v) c) i = Some b'
             /\ skeleton b' = skeleton b.
Proof.
  intros H. rewrite nth_error_update_nth, H.
  destruct (Nat.eqb i n); simpl; eauto.
Qed.

Lemma block_wf_skeleton (d : Z) (c c' : list Block) (i : nat) (b b' : Block) :
  skeleton b' = skeleton b ->
  (forall j prev, nth_error c j = Some prev ->
     exists prev', nth_error c' j = Some prev' /\ skeleton prev' = skeleton prev) ->
  block_wf d c i b -> block_wf d c' i b'.
Proof.
  unfold skeleton, block_wf. intros Hs Hc (Hi & Hn & Hl & Hp & Hk).
  injection Hs as E1 E2 E3 E4 E5. rewrite E1, E3, E4, E5.
  split; [exact Hi|]. split; [exact Hn|]. split; [exact Hl|]. split; [exact Hp|].
  destruct i as [|j]; [exact Hk|].
  destruct Hk as (prev & Hj & Hq).
  destruct (Hc j prev Hj) as (prev' & Hj' & Hs').
  exists prev'. split; [exact Hj'|].
  injection Hs' as _ _ _ _ E. now rewrite E.
Qed.

Lemma chain_wf_genesis (d : Z) (now : pyfloat) (fuel : nat) (g : Block) :
  mine fuel d (Block_init now 0 genesis_data zeros64) = Returned g ->
  chain_wf (mkChain d [g]).
Proof.
  intros Hm. pose proof (mine_returned_nonneg _ _ _ _ Hm) as Hd.
  rewrite mine_nonneg in Hm by assumption.
  apply mine_loop_returned in Hm as (Hh & Hs & (Hi & _ & _ & Hp) & Hn & _).
  assert (Hl : String.length (hash g) = 64%nat)
    by (rewrite Hh; apply sha256_hex_length).
  split; [|split; [discriminate|]].
  - simpl. split; [exact Hd|].
    apply startswith_length in Hs. rewrite str_repeat_length, Hl in Hs. lia.
  - intros [|[|i]] b Hb; simpl in Hb; try discriminate.
    injection Hb as <-. simpl. repeat split; assumption.
Qed.

Lemma chain_wf_append (d : Z) (b : Block) (tl : list Block) (now : pyfloat)
    (payload : pydict) (fuel : nat) (nb : Block) :
  chain_wf (mkChain d (b :: tl)) ->
  mine fuel d (Block_init now (index (last tl b) + 1) payload (hash (last tl b)))
    = Returned nb ->
  chain_wf (mkChain d ((b :: tl) ++ [nb])%list).
Proof.
  intros (Hd & _ & Hwf) Hm. simpl in Hd, Hwf.
  pose proof (nth_error_last b tl) as Hlast.
  assert (Hlen : List.length (b :: tl) = S (List.length tl)) by reflexivity.
  pose proof (Hwf _ _ Hlast) as (Hli & _).
  revert Hlast Hlen Hwf. generalize (b :: tl) as c. intros c Hlast Hlen Hwf.
  rewrite mine_nonneg in Hm by lia.
  apply mine_loop_returned in Hm as (Hh & Hs & (Hi & _ & _ & Hp) & Hn & _).
  simpl in Hi, Hp, Hn.
  split; [exact Hd|]. split; [destruct c; discriminate|].
  cbn [chain difficulty]. intros i x Hx.
  destruct (Nat.lt_ge_cases i (List.length c)) as [Hlt|Hge].
  - rewrite nth_error_app1 in Hx by exact Hlt.
    apply (block_wf_skeleton d c _ i x x eq_refl); [|now apply Hwf].
    intros j prev Hj. exists prev. split; [|reflexivity].
    rewrite nth_error_app1; [exact Hj|]. apply nth_error_Some. congruence.
  - rewrite nth_error_app2 in Hx by exact Hge.
    destruct (i - List.length c)%nat as [|k] eqn:E;
      [|destruct k; discriminate].
    injection Hx as <-. assert (i = S (List.length tl)) as -> by lia.
    repeat split.
    + rewrite Hi, Hli. lia.
    + lia.
    + rewrite Hh. apply sha256_hex_length.
    + exact Hs.
    + exists (last tl b). split; [|exact Hp].
      rewrite nth_error_app1 by lia. exact Hlast.
Qed.

Lemma chain_wf_tampered (d : Z) (c : list Block) (key v : string) (n : nat) :
  chain_wf (mkChain d c) -> chain_wf (mkChain d (update_nth n (tampered key v) c)).
Proof.
  unfold chain_wf. cbn [chain difficulty]. intros (Hd & Hne & Hwf).
  split; [exact Hd|]. split.
  - intros E. apply Hne. apply length_zero_iff_nil.
    rewrite <- (update_nth_length (tampered key v) c n), E. reflexivity.
  - intros i b' Hb'.
    apply nth_error_update_tampered in Hb' as (b & Hb & Hs).
    apply (block_wf_skeleton d c _ i b b' Hs); [|now apply Hwf].
    intros j prev Hj. now apply nth_error_update_tampered_inv.
Qed.

Lemma reachable_chain_wf (tampering : bool) (w : world) :
  reachable tampering w -> chain_wf (self w).
Proof.
  induction 1 as [fuel now d bc out Hi | w fuel now payload nb w' Hr IH Ha
                 | w r w' Hr IH Hv | w i key v w' Ht Hr IH Hm].
  - apply Blockchain_init_returned in Hi as (g & -> & Hm).
    simpl. now apply chain_wf_genesis in Hm.
  - destruct (chain (self w)) as [|b tl] eqn:Hc; [now destruct IH as (_ & ? & _)|].
    rewrite (add_block_run _ _ _ _ _ _ Hc) in Ha.
    destruct (mine fuel _ _) as [nb0| |] eqn:Hm; try discriminate.
    injection Ha as <- <-. simpl. rewrite Hc.
    apply (chain_wf_append _ _ _ now payload fuel); [|exact Hm].
    destruct w as [[d c] out]. simpl in *. now subst c.
  - rewrite is_valid_run in Hv.
    destruct (first_failure (self w)); injection Hv as <- <-; exact IH.
  - apply tamper_returned in Hm as (Hd & [Hsame | (n & Hupd)]).
    + destruct w as [[d c] out], w' as [[d' c'] out']. simpl in *. now subst.
    + destruct w as [[d c] out], w' as [[d' c'] out']. simpl in *. subst.
      now apply chain_wf_tampered.
Qed.

(** X7. On every chain the program builds, tampered with or not, the
    chain is not empty: [tip] returns its last block, and [add_block]
    never raises, neither the index error of an empty chain nor the
    assertion error of a negative difficulty. *)
Theorem reachable_tip_and_add_block_never_raise (tampering : bool) (w : world) :
  reachable tampering w ->
  (exists b tl, chain (self w) = b :: tl /\ tip w = Returned (last tl b, w))
  /\ forall fuel now payload e, add_block fuel now payload w <> Raised e.
Proof.
  intros Hr. apply reachable_chain_wf in Hr as (Hd & Hne & _).
  destruct (chain (self w)) as [|b tl] eqn:Hc; [congruence|].
  split.
  - exists b, tl. split; [reflexivity|]. now apply tip_run.
  - intros fuel now payload e. rewrite (add_block_run _ _ _ _ _ _ Hc).
    rewrite mine_nonneg by lia.
    destruct (mine_loop fuel _ _) eqn:E; try discriminate.
    now apply mine_loop_not_raised in E.
Qed.

Lemma reachable_tip_and_add_block_never_raise_witness :
  reachable true sample_world
  /\ exists b tl, chain (self sample_world) = b :: tl
                  /\ tip sample_world = Returned (last tl b, sample_world).
Proof.
  assert (Hr : reachable true sample_world) by apply sample_world_reachable.
  split; [exact Hr|].
  exact (proj1 (reachable_tip_and_add_block_never_raise true sample_world Hr)).
Defined.

(** X8. On every chain the program builds, tampered with or not, the
    block at position [i] has index [i] and a nonce that is not
    negative. *)
Theorem reachable_index_is_position (tampering : bool) (w : world) (i : nat) (b : Block) :
  reachable tampering w ->
  nth_error (chain (self w)) i = Some b ->
  index b = Z.of_nat i /\ 0 <= nonce b.
Proof.
  intros Hr Hb. apply reachable_chain_wf in Hr as (_ & _ & Hwf).
  destruct (Hwf i b Hb) as (Hi & Hn & _). now split.
Qed.

Lemma reachable_index_is_position_witness :
  reachable true sample_world
  /\ nth_error (chain (self sample_world)) 1 = Some sample_second
  /\ index sample_second = Z.of_nat 1 /\ 0 <= nonce sample_second.
Proof.
  assert (Hr : reachable true sample_world) by apply sample_world_reachable.
  assert (Hb : nth_error (chain (self sample_world)) 1 = Some sample_second)
    by reflexivity.
  split; [exact Hr|]. split; [exact Hb|].
  exact (reachable_index_is_position true sample_world 1 sample_second Hr Hb).
Defined.

(** X9. On every chain the program builds, tampered with or not, the
    difficulty lies between 0 and 64 and every block has a stored hash
    and a previous hash of 64 characters. *)
Theorem reachable_hashes_have_64_characters (tampering : bool) (w : world)
    (i : nat) (b : Block) :
  reachable tampering w ->
  nth_error (chain (self w)) i = Some b ->
  0 <= difficulty (self w) <= 64
  /\ String.length (hash b) = 64%nat
  /\ String.length (previous_hash b) = 64%nat.
Proof.
  intros Hr Hb. apply reachable_chain_wf in Hr as (Hd & _ & Hwf).
  destruct (Hwf i b Hb) as (_ & _ & Hl & _ & Hk).
  split; [exact Hd|]. split; [exact Hl|].
  destruct i as [|j].
  - rewrite Hk. reflexivity.
  - destruct Hk as (prev & Hj & ->).
    now destruct (Hwf j prev Hj) as (_ & _ & Hl' & _).
Qed.

Lemma reachable_hashes_have_64_characters_witness :
  reachable true sample_world
  /\ nth_error (chain (self sample_world)) 1 = Some sample_second
  /\ String.length (hash sample_second) = 64%nat.
Proof.
  assert (Hr : reachable true sample_world) by apply sample_world_reachable.
  assert (Hb : nth_error (chain (self sample_world)) 1 = Some sample_second)
    by reflexivity.
  split; [exact Hr|]. split; [exact Hb|].
  exact (proj1 (proj2 (reachable_hashes_have_64_characters true sample_world 1
                         sample_second Hr Hb))).
Defined.

(** X10. Tampering through the menu touches payloads only, so on every
    chain the program builds the difficulty and the links still hold:
    [is_valid] returns [True], or returns [False] after printing the
    hash mismatch of a block of the chain; it never reports a difficulty
    failure, a wrong genesis link or a broken link. *)
Theorem reachable_only_hash_mismatch_reported (tampering : bool) (w : world) :
  reachable tampering w ->
  is_valid w = Returned (true, w)
  \/ exists i, (i < List.length (chain (self w)))%nat
               /\ is_valid w = Returned (false, printed w (HashMismatch i)).
Proof.
  intros Hr. apply reachable_chain_wf in Hr as (_ & _ & Hwf).
  destruct (is_valid w) as [[[|] w']| |] eqn:Hv.
  - left. rewrite is_valid_run in Hv.
    destruct (first_failure (self w)); [discriminate|]. symmetry. exact Hv.
  - right. apply is_valid_false_first_failure in Hv
      as (i & b & m & -> & Hb & Hf & _).
    destruct (Hwf i b Hb) as (_ & _ & _ & Hs & Hk).
    exists i. split; [apply nth_error_Some; congruence|].
    destruct Hf as [(-> & _) | [(_ & _ & Hs') | [(_ & -> & _ & _ & Hp)
                   | (_ & _ & _ & j & prev & -> & Hj & Hp)]]].
    + reflexivity.
    + congruence.
    + contradiction.
    + destruct Hk as (prev' & Hj' & Hq). congruence.
  - rewrite is_valid_run in Hv. discriminate.
  - rewrite is_valid_run in Hv. discriminate.
Qed.

Lemma is_valid_true_iff_every_block_ok_witness :
  is_valid sample_world = Returned (true, sample_world)
  /\ block_ok (str_repeat "0" (difficulty (self sample_world)))
       (chain (self sample_world)) 1 sample_second.
Proof.
  assert (Hv : is_valid sample_world = Returned (true, sample_world))
    by (vm_compute; reflexivity).
  split; [exact Hv|].
  exact (proj1 (proj1 (is_valid_true_iff_every_block_ok sample_world)) Hv
           1%nat sample_second eq_refl).
Defined.

Lemma reachable_only_hash_mismatch_reported_witness :
  reachable true sample_world
  /\ (is_valid sample_world = Returned (true, sample_world)
      \/ exists i, (i < List.length (chain (self sample_world)))%nat
                   /\ is_valid sample_world
                      = Returned (false, printed sample_world (HashMismatch i))).
Proof.
  assert (Hr : reachable true sample_world) by apply sample_world_reachable.
  split; [exact Hr|].
  exact (reachable_only_hash_mismatch_reported true sample_world Hr).
Defined.

(** X11. On every chain the program builds, tampered with or not, every
    block but the first carries as previous hash the stored hash of the
    block before it, and every stored hash begins with the zeros of the
    difficulty. *)
Theorem reachable_links_and_difficulty_hold (tampering : bool) (w : world)
    (i : nat) (b : Block) :
  reachable tampering w ->
  nth_error (chain (self w)) i = Some b ->
  startswith (hash b) (str_repeat "0" (difficulty (self w))) = true
  /\ (i = O -> previous_hash b = str_repeat "0" 64)
  /\ (forall j prev, i = S j -> nth_error (chain (self w)) j = Some prev ->
        previous_hash b = hash prev).
Proof.
  intros Hr Hb. apply reachable_chain_wf in Hr as (_ & _ & Hwf).
  destruct (Hwf i b Hb) as (_ & _ & _ & Hs & Hk).
  split; [exact Hs|]. split.
  - intros ->. exact Hk.
  - intros j prev -> Hj. destruct Hk as (prev' & Hj' & Hq). congruence.
Qed.

Lemma reachable_links_and_difficulty_hold_witness :
  reachable true sample_world
  /\ nth_error (chain (self sample_world)) 1 = Some sample_second
  /\ startswith (hash sample_second)
       (str_repeat "0" (difficulty (self sample_world))) = true.
Proof.
  assert (Hr : reachable true sample_world) by apply sample_world_reachable.
  assert (Hb : nth_error (chain (self sample_world)) 1 = Some sample_second)
    by reflexivity.
  split; [exact Hr|]. split; [exact Hb|].
  exact (proj1 (reachable_links_and_difficulty_hold true sample_world 1
                  sample_second Hr Hb)).
Defined.

(** ** The history only grows *)

Lemma keeps_blocks_refl (c : list Block) : keeps_blocks c c.
Proof. intros i b H. now exists b. Qed.

Lemma keeps_blocks_trans (c1 c2 c3 : list Block) :
  keeps_blocks c1 c2 -> keeps_blocks c2 c3 -> keeps_blocks c1 c3.
Proof.
  intros H12 H23 i b H. destruct (H12 i b H) as (b2 & H2 & E2).
  destruct (H23 i b2 H2) as (b3 & H3 & E3). exists b3. split; [exact H3|congruence].
Qed.

Lemma add_block_returned (fuel : nat) (now : pyfloat) (payload : pydict)
    (w w' : world) (nb : Block) :
  add_block fuel now payload w = Returned (nb, w') -> w' = appended w nb.
Proof.
  destruct (chain (self w)) as [|b tl] eqn:Hc.
  - now rewrite add_block_empty.
  - rewrite (add_block_run _ _ _ _ _ _ Hc).
    destruct (mine fuel _ _); try discriminate. intros H. now injection H as <- <-.
Qed.

Lemma is_valid_returned (w w' : world) (r : bool) :
  is_valid w = Returned (r, w') -> self w' = self w.
Proof.
  rewrite is_valid_run.
  destruct (first_failure (self w)); intros H; injection H as <- <-; reflexivity.
Qed.

(** X12. No sequence of [add_block], [is_valid] and tampering changes
    the difficulty of the chain, shortens the chain, or changes the
    index, timestamp, previous hash, nonce or stored hash of a block
    already in it: blocks are never removed, reordered or re-mined. *)
Theorem chain_run_keeps_history (w w' : world) :
  chain_run w w' ->
  difficulty (self w') = difficulty (self w)
  /\ (List.length (chain (self w)) <= List.length (chain (self w')))%nat
  /\ keeps_blocks (chain (self w)) (chain (self w')).
Proof.
  induction 1 as [w | w fuel now payload nb w1 w2 Ha _ IH
                 | w r w1 w2 Hv _ IH | w i key v w1 w2 Ht _ IH].
  - split; [reflexivity|]. split; [lia|apply keeps_blocks_refl].
  - apply add_block_returned in Ha. subst w1. simpl in IH.
    destruct IH as (Hd & Hl & Hk). rewrite length_app in Hl. simpl in Hl.
    split; [exact Hd|]. split; [lia|].
    eapply keeps_blocks_trans; [|exact Hk].
    intros j b Hb. exists b. split; [|reflexivity].
    rewrite nth_error_app1; [exact Hb|]. apply nth_error_Some. congruence.
  - apply is_valid_returned in Hv. now rewrite Hv in IH.
  - apply tamper_returned in Ht as (Hd & Hc).
    destruct IH as (Hd' & Hl & Hk).
    split; [congruence|].
    destruct Hc as [Hc | (n & Hc)].
    + rewrite Hc in Hl, Hk. now split.
    + rewrite Hc, update_nth_length in Hl. split; [exact Hl|].
      eapply keeps_blocks_trans; [|exact Hk].
      rewrite Hc. intros j b Hb. now apply nth_error_update_tampered_inv.
Qed.

Lemma chain_run_keeps_history_witness :
  chain_run sample_world0 sample_world
  /\ difficulty (self sample_world) = difficulty (self sample_world0)
  /\ (List.length (chain (self sample_world0))
      <= List.length (chain (self sample_world)))%nat.
Proof.
  assert (Hr : chain_run sample_world0 sample_world).
  { eapply run_add; [exact sample_world_added|apply run_done]. }
  split; [exact Hr|].
  destruct (chain_run_keeps_history _ _ Hr) as (Hd & Hl & _).
  split; [exact Hd|exact Hl].
Defined.

(** ** Menu entry 4 *)

Lemma dict_get_set_same (key : string) (v : json) (d : pydict) :
  dict_get key (dict_set key v d) = Some v.
Proof.
  induction d as [|[k v'] d IH]; simpl.
  - now rewrite String.eqb_refl.
  - destruct (k =? key) eqn:E; simpl; rewrite E; [reflexivity|exact IH].
Qed.

Lemma dict_get_set_other (key key' : string) (v : json) (d : pydict) :
  key' <> key -> dict_get key' (dict_set key v d) = dict_get key' d.
Proof.
  intros Hne. induction d as [|[k v'] d IH]; simpl.
  - apply String.eqb_neq in Hne. rewrite String.eqb_sym. now rewrite Hne.
  - destruct (k =? key) eqn:E; simpl.
    + apply String.eqb_eq in E. subst k.
      apply String.eqb_neq in Hne. rewrite String.eqb_sym in Hne. now rewrite Hne.
    + destruct (k =? key'); [reflexivity|exact IH].
Qed.

Lemma dict_set_keys (key : string) (v : json) (d : pydict) :
  dict_contains key d = true -> map fst (dict_set key v d) = map fst d.
Proof.
  unfold dict_contains. induction d as [|[k v'] d IH]; simpl; [discriminate|].
  destruct (k =? key) eqn:E; simpl; [reflexivity|].
  intros H. now rewrite IH.
Qed.

Lemma dict_set_set (key : string) (v1 v2 : json) (d : pydict) :
  dict_set key v2 (dict_set key v1 d) = dict_set key v2 d.
Proof.
  induction d as [|[k v'] d IH]; simpl.
  - now rewrite String.eqb_refl.
  - destruct (k =? key) eqn:E; simpl; rewrite E; [reflexivity|now rewrite IH].
Qed.

Lemma dict_contains_set (key : string) (v : json) (d : pydict) :
  dict_contains key (dict_set key v d) = true.
Proof.
  unfold dict_contains. induction d as [|[k v'] d IH]; simpl.
  - now rewrite String.eqb_refl.
  - destruct (k =? key) eqn:E; simpl; rewrite E; [reflexivity|exact IH].
Qed.

Lemma tamper_out_of_range (i : Z) (key v : string) (w : world) :
  i < 0 \/ Z.of_nat (List.length (chain (self w))) <= i ->
  tamper i key v w = Returned (tt, printed w InvalidIndex).
Proof.
  intros Hi. unfold tamper, bind at 1, read.
  destruct ((0 <=? i) && (i <? Z.of_nat (List.length (chain (self w)))))%Z eqn:E;
    [|reflexivity].
  apply andb_true_iff in E as [E1 E2]. apply Z.leb_le in E1. apply Z.ltb_lt in E2. lia.
Qed.

(** X13. A tamper request that names no block of the chain, or a field
    the block's payload does not have, leaves the chain object as it is
    and prints the line of its error: the index error for a negative
    index or one at or past the length, the field error for an absent
    key. *)
Theorem tamper_malformed_request_changes_nothing (i : Z) (key v : string) (w : world) :
  (i < 0 \/ Z.of_nat (List.length (chain (self w))) <= i ->
   tamper i key v w = Returned (tt, printed w InvalidIndex))
  /\ (forall b, 0 <= i ->
        nth_error (chain (self w)) (Z.to_nat i) = Some b ->
        dict_contains key (data b) = false ->
        tamper i key v w = Returned (tt, printed w InvalidField)).
Proof.
  split; [apply tamper_out_of_range|].
  intros b Hi Hn Hk.
  apply nth_error_split in Hn as (pre & post & Hc & Hlen).
  rewrite (tamper_run i key v w pre b post Hc Hi) by (symmetry; exact Hlen).
  now rewrite Hk.
Qed.

Lemma tamper_malformed_request_changes_nothing_witness :
  (7 < 0 \/ Z.of_nat (List.length (chain (self sample_world))) <= 7)
  /\ tamper 7 "amount" "1" sample_world = Returned (tt, printed sample_world InvalidIndex)
  /\ dict_contains "amount" (data sample_mined) = false
  /\ tamper 0 "amount" "1" sample_world = Returned (tt, printed sample_world InvalidField).
Proof.
  assert (H7 : 7 < 0 \/ Z.of_nat (List.length (chain (self sample_world))) <= 7)
    by (right; simpl; lia).
  assert (H0 : 0 <= 0) by lia.
  assert (Hk : dict_contains "amount" (data sample_mined) = false) by reflexivity.
  destruct (tamper_malformed_request_changes_nothing 7 "amount" "1" sample_world)
    as (Hidx & _).
  destruct (tamper_malformed_request_changes_nothing 0 "amount" "1" sample_world)
    as (_ & Hfld).
  split; [exact H7|]. split; [exact (Hidx H7)|]. split; [exact Hk|].
  exact (Hfld sample_mined H0 eq_refl Hk).
Defined.

(** X14. Menu entry 4 always comes back, and whatever the request it
    keeps the difficulty and the length of the chain and, in every
    block, the index, timestamp, previous hash, nonce, stored hash and
    the keys of the payload in their order; a block at another position
    than the one named is not changed at all. *)
Theorem tamper_changes_one_payload_value_only (i : Z) (key v : string) (w : world) :
  exists w',
    tamper i key v w = Returned (tt, w')
    /\ difficulty (self w') = difficulty (self w)
    /\ List.length (chain (self w')) = List.length (chain (self w))
    /\ forall j b, nth_error (chain (self w)) j = Some b ->
         exists b', nth_error (chain (self w')) j = Some b'
                    /\ skeleton b' = skeleton b
                    /\ map fst (data b') = map fst (data b)
                    /\ (Z.of_nat j <> i -> b' = b).
Proof.
  assert (Hsame : forall m, exists w',
            Returned (tt, printed w m) = Returned (tt, w')
            /\ difficulty (self w') = difficulty (self w)
            /\ List.length (chain (self w')) = List.length (chain (self w))
            /\ forall j b, nth_error (chain (self w)) j = Some b ->
                 exists b', nth_error (chain (self w')) j = Some b'
                            /\ skeleton b' = skeleton b
                            /\ map fst (data b') = map fst (data b)
                            /\ (Z.of_nat j <> i -> b' = b)).
  { intros m. exists (printed w m). repeat split. intros j b Hb. exists b. now repeat split. }
  destruct (Z.leb_spec 0 i) as [Hi|Hi];
    [|rewrite tamper_out_of_range by lia; apply Hsame].
  destruct (nth_error (chain (self w)) (Z.to_nat i)) as [blk|] eqn:Hn.
  2: { apply nth_error_None in Hn.
       rewrite tamper_out_of_range by lia. apply Hsame. }
  pose proof Hn as Hn'.
  apply nth_error_split in Hn' as (pre & post & Hc & Hlen).
  rewrite (tamper_run i key v w pre blk post Hc Hi) by (symmetry; exact Hlen).
  destruct (dict_contains key (data blk)) eqn:Hk; [|apply Hsame].
  eexists. split; [reflexivity|]. cbn [self printed chain difficulty].
  split; [reflexivity|]. split.
  { rewrite Hc, !length_app. reflexivity. }
  intros j b Hb. rewrite Hc in Hb.
  destruct (Nat.lt_trichotomy j (List.length pre)) as [Hj | [Hj | Hj]].
  - rewrite nth_error_app1 in Hb by exact Hj.
    exists b. rewrite nth_error_app1 by exact Hj. now repeat split.
  - subst j. rewrite nth_error_app2, Nat.sub_diag in Hb by lia.
    injection Hb as <-. exists (tampered key v blk).
    rewrite nth_error_app2, Nat.sub_diag by lia.
    split; [reflexivity|]. split; [reflexivity|]. split.
    + simpl. now apply dict_set_keys.
    + intros Hne. lia.
  - rewrite nth_error_app2 in Hb by lia.
    exists b. rewrite nth_error_app2 by lia.
    destruct (j - List.length pre)%nat as [|k] eqn:E; [lia|].
    simpl in Hb |- *. now repeat split.
Qed.

(** X15. After a tamper request on an existing key of block [i], that
    key of the block's payload reads back the typed text, as a string,
    and every other key of the payload reads back what it did. *)
Theorem tamper_then_lookup (w : world) (i : Z) (key v : string) (b : Block) :
  0 <= i ->
  nth_error (chain (self w)) (Z.to_nat i) = Some b ->
  dict_contains key (data b) = true ->
  exists w' b',
    tamper i key v w = Returned (tt, w')
    /\ nth_error (chain (self w')) (Z.to_nat i) = Some b'
    /\ dict_get key (data b') = Some (JStr v)
    /\ dict_contains key (data b') = true
    /\ forall key', key' <> key -> dict_get key' (data b') = dict_get key' (data b).
Proof.
  intros Hi Hn Hk.
  apply nth_error_split in Hn as (pre & post & Hc & Hlen).
  rewrite (tamper_run i key v w pre b post Hc Hi) by (symmetry; exact Hlen).
  rewrite Hk. eexists. exists (tampered key v b). split; [reflexivity|].
  split. { simpl. rewrite <- Hlen, nth_error_app2, Nat.sub_diag by lia. reflexivity. }
  simpl. split; [apply dict_get_set_same|]. split; [apply dict_contains_set|].
  intros key' Hne. now apply dict_get_set_other.
Qed.

Lemma tamper_then_lookup_witness :
  0 <= 1
  /\ nth_error (chain (self sample_world)) (Z.to_nat 1) = Some sample_second
  /\ dict_contains "amount" (data sample_second) = true
  /\ exists w' b',
       tamper 1 "amount" "999" sample_world = Returned (tt, w')
       /\ nth_error (chain (self w')) (Z.to_nat 1) = Some b'
       /\ dict_get "amount" (data b') = Some (JStr "999").
Proof.
  assert (Hi : 0 <= 1) by lia.
  assert (Hn : nth_error (chain (self sample_world)) (Z.to_nat 1) = Some sample_second)
    by reflexivity.
  assert (Hk : dict_contains "amount" (data sample_second) = true) by reflexivity.
  split; [exact Hi|]. split; [exact Hn|]. split; [exact Hk|].
  destruct (tamper_then_lookup sample_world 1 "amount" "999" sample_second Hi Hn Hk)
    as (w' & b' & H1 & H2 & H3 & _).
  exists w', b'. split; [exact H1|]. split; [exact H2|exact H3].
Defined.

Lemma tamper_changes_one_payload_value_only_witness :
  exists w',
    tamper 1 "amount" "999" sample_world = Returned (tt, w')
    /\ List.length (chain (self w')) = List.length (chain (self sample_world))
    /\ exists b', nth_error (chain (self w')) 0 = Some b' /\ b' = sample_mined.
Proof.
  destruct (tamper_changes_one_payload_value_only 1 "amount" "999" sample_world)
    as (w' & Ht & _ & Hl & Hb).
  exists w'. split; [exact Ht|]. split; [exact Hl|].
  destruct (Hb 0%nat sample_mined eq_refl) as (b' & Hn & _ & _ & He).
  exists b'. split; [exact Hn|]. apply He. simpl. lia.
Defined.

Lemma tampered_twice (key v1 v2 : string) (b : Block) :
  tampered key v2 (tampered key v1 b) = tampered key v2 b.
Proof. unfold tampered, set_data. simpl. now rewrite dict_set_set. Qed.

(** Two tamper requests in a row on the same block and key, both
    decomposed. *)
Lemma tamper_twice_run (w w1 : world) (i : Z) (key v1 v2 : string) (b : Block) :
  0 <= i ->
  nth_error (chain (self w)) (Z.to_nat i) = Some b ->
  dict_contains key (data b) = true ->
  tamper i key v1 w = Returned (tt, w1) ->
  exists pre post,
    chain (self w) = (pre ++ b :: post)%list
    /\ self w1 = mkChain (difficulty (self w)) (pre ++ tampered key v1 b :: post)%list
    /\ tamper i key v2 w1
       = Returned (tt, printed (mkWorld (mkChain (difficulty (self w))
                                          (pre ++ tampered key v2 b :: post)%list)
                                        (stdout w1))
                               (BlockModified i)).
Proof.
  intros Hi Hn Hk Ht.
  apply nth_error_split in Hn as (pre & post & Hc & Hlen).
  rewrite (tamper_run i key v1 w pre b post Hc Hi) in Ht by (symmetry; exact Hlen).
  rewrite Hk in Ht. injection Ht as <-.
  exists pre, post. split; [exact Hc|]. split; [reflexivity|].
  match goal with
  | |- tamper _ _ _ ?x = _ =>
      rewrite (tamper_run i key v2 x pre (tampered key v1 b) post eq_refl Hi)
        by (symmetry; exact Hlen)
  end.
  simpl data. rewrite dict_contains_set, tampered_twice. reflexivity.
Qed.

(** X16. Repeating a tamper request changes nothing more: after the
    same request a second time the chain object is the one the first
    request left. *)
Theorem tamper_twice_same_as_once (w w1 w2 : world) (i : Z) (key v : string) :
  tamper i key v w = Returned (tt, w1) ->
  tamper i key v w1 = Returned (tt, w2) ->
  self w2 = self w1.
Proof.
  intros H1 H2.
  destruct (Z.leb_spec 0 i) as [Hi|Hi].
  2: { rewrite tamper_out_of_range in H2 by lia. now injection H2 as <-. }
  destruct (nth_error (chain (self w)) (Z.to_nat i)) as [b|] eqn:Hn.
  2: { apply nth_error_None in Hn.
       rewrite tamper_out_of_range in H1 by lia. injection H1 as <-.
       rewrite tamper_out_of_range in H2 by (simpl; lia). now injection H2 as <-. }
  destruct (dict_contains key (data b)) eqn:Hk.
  - destruct (tamper_twice_run w w1 i key v v b Hi Hn Hk H1)
      as (pre & post & Hc & Hw1 & Ht).
    rewrite Ht in H2. injection H2 as <-. simpl. now rewrite Hw1.
  - pose proof Hn as Hn'.
    apply nth_error_split in Hn' as (pre & post & Hc & Hlen).
    rewrite (tamper_run i key v w pre b post Hc Hi) in H1 by (symmetry; exact Hlen).
    rewrite Hk in H1. injection H1 as <-.
    rewrite (tamper_run i key v (printed w InvalidField) pre b post Hc Hi) in H2
      by (symmetry; exact Hlen).
    rewrite Hk in H2. now injection H2 as <-.
Qed.

Lemma tamper_twice_same_as_once_witness :
  exists w1 w2,
    tamper 1 "amount" "999" sample_world = Returned (tt, w1)
    /\ tamper 1 "amount" "999" w1 = Returned (tt, w2)
    /\ self w2 = self w1.
Proof.
  eexists. eexists.
  assert (H1 : tamper 1 "amount" "999" sample_world
               = Returned (tt, printed (mkWorld (mkChain 1
                   [sample_mined; tampered "amount" "999" sample_second])
                   (stdout sample_world)) (BlockModified 1))) by reflexivity.
  assert (H2 : tamper 1 "amount" "999" (printed (mkWorld (mkChain 1
                   [sample_mined; tampered "amount" "999" sample_second])
                   (stdout sample_world)) (BlockModified 1))
               = Returned (tt, printed (printed (mkWorld (mkChain 1
                   [sample_mined; tampered "amount" "999" sample_second])
                   (stdout sample_world)) (BlockModified 1)) (BlockModified 1)))
    by reflexivity.
  split; [exact H1|]. split; [exact H2|].
  exact (tamper_twice_same_as_once _ _ _ _ _ _ H1 H2).
Defined.

(** X17. A tamper request is undone by a second one that types back the
    text the field held: when the value stored at the key was the string
    [old], tampering with any text and then with [old] gives back the
    chain object as it was before both, so [is_valid] returns what it
    returned before. *)
Theorem tamper_back_restores_chain
    (w w1 : world) (i : Z) (key v old : string) (b : Block) :
  0 <= i ->
  nth_error (chain (self w)) (Z.to_nat i) = Some b ->
  dict_get key (data b) = Some (JStr old) ->
  tamper i key v w = Returned (tt, w1) ->
  exists w2,
    tamper i key old w1 = Returned (tt, w2)
    /\ self w2 = self w
    /\ forall r w', is_valid w = Returned (r, w') ->
         exists w2', is_valid w2 = Returned (r, w2').
Proof.
  intros Hi Hn Hg Ht.
  assert (Hk : dict_contains key (data b) = true).
  { unfold dict_contains. clear -Hg. induction (data b) as [|[k x] d IH];
      simpl in *; [discriminate|].
    destruct (k =? key); [reflexivity|now apply IH]. }
  destruct (tamper_twice_run w w1 i key v old b Hi Hn Hk Ht)
    as (pre & post & Hc & _ & Ht2).
  eexists. split; [exact Ht2|].
  assert (Hb : tampered key old b = b).
  { unfold tampered. rewrite (dict_set_same _ _ _ Hg). apply set_data_same. }
  assert (Hs : self (printed (mkWorld (mkChain (difficulty (self w))
                        (pre ++ tampered key old b :: post)%list) (stdout w1))
                      (BlockModified i)) = self w).
  { simpl. rewrite Hb, <- Hc. destruct w as [[d c] out]. reflexivity. }
  split; [exact Hs|].
  intros r w' Hv. rewrite is_valid_run in Hv |- *. rewrite Hs.
  destruct (first_failure (self w)); injection Hv as <- _; eauto.
Qed.

Lemma tamper_back_restores_chain_witness :
  0 <= 0
  /\ nth_error (chain (self sample_world)) (Z.to_nat 0) = Some sample_mined
  /\ dict_get "msg" (data sample_mined) = Some (JStr "Genesis Block")
  /\ exists w1 w2,
       tamper 0 "msg" "x" sample_world = Returned (tt, w1)
       /\ tamper 0 "msg" "Genesis Block" w1 = Returned (tt, w2)
       /\ self w2 = self sample_world.
Proof.
  assert (Hi : 0 <= 0) by lia.
  assert (Hn : nth_error (chain (self sample_world)) (Z.to_nat 0) = Some sample_mined)
    by reflexivity.
  assert (Hg : dict_get "msg" (data sample_mined) = Some (JStr "Genesis Block"))
    by reflexivity.
  assert (H1 : tamper 0 "msg" "x" sample_world
               = Returned (tt, printed (mkWorld (mkChain 1
                   [tampered "msg" "x" sample_mined; sample_second])
                   (stdout sample_world)) (BlockModified 0))) by reflexivity.
  split; [exact Hi|]. split; [exact Hn|]. split; [exact Hg|].
  destruct (tamper_back_restores_chain sample_world _ 0 "msg" "x" "Genesis Block"
              sample_mined Hi Hn Hg H1) as (w2 & H2 & Hs & _).
  eexists. exists w2. split; [exact H1|]. split; [exact H2|exact Hs].
Defined.

(** ** Appending to a chain that does not validate *)

(** X18. Appending never repairs a chain: when [is_valid] has returned
    [False] with some line, it returns [False] with the same line after
    any [add_block]. *)
Theorem add_block_keeps_first_failure
    (w w1 : world) (m : message) (fuel : nat) (now : pyfloat) (payload : pydict)
    (nb : Block) :
  is_valid w = Returned (false, printed w m) ->
  add_block fuel now payload w = Returned (nb, w1) ->
  is_valid w1 = Returned (false, printed w1 m).
Proof.
  intros Hv Ha. apply add_block_returned in Ha. subst w1.
  rewrite is_valid_run in Hv |- *.
  destruct (first_failure (self w)) as [m'|] eqn:E; [|discriminate].
  assert (m' = m) as ->.
  { injection Hv as Hv. apply app_inv_head in Hv. now injection Hv. }
  assert (E' : first_failure (self (appended w nb)) = Some m).
  { unfold first_failure, enumerate in E |- *. cbn [self appended chain difficulty].
    rewrite enumerate_from_app, first_failure_in_app.
    rewrite (first_failure_in_prefix _ (chain (self w)) [nb] []).
    - now rewrite app_nil_r, E.
    - eapply Forall_impl; [|apply enumerate_from_bound]. simpl. intros ib H. lia. }
  now rewrite E'.
Qed.

Lemma add_block_keeps_first_failure_witness :
  is_valid sample_unlinked_world
  = Returned (false, printed sample_unlinked_world (HashMismatch 0))
  /\ exists nb w1,
       add_block 1 sample_time2 sample_payload sample_unlinked_world = Returned (nb, w1)
       /\ is_valid w1 = Returned (false, printed w1 (HashMismatch 0)).
Proof.
  assert (Hv : is_valid sample_unlinked_world
               = Returned (false, printed sample_unlinked_world (HashMismatch 0)))
    by (vm_compute; reflexivity).
  split; [exact Hv|].
  destruct (add_block 1 sample_time2 sample_payload sample_unlinked_world)
    as [[nb w1]| |] eqn:Ha; [|vm_compute in Ha; discriminate..].
  exists nb, w1. split; [reflexivity|].
  exact (add_block_keeps_first_failure _ _ _ _ _ _ _ Hv Ha).
Defined.

(** ** The order of the keys of a payload *)

Lemma ascii_compare_refl (a : ascii) : Ascii.compare a a = Eq.
Proof. unfold Ascii.compare. apply N.compare_refl. Qed.

Lemma ascii_compare_lt_trans (a b c : ascii) :
  Ascii.compare a b = Lt -> Ascii.compare b c = Lt -> Ascii.compare a c = Lt.
Proof.
  unfold Ascii.compare. rewrite !N.compare_lt_iff. apply N.lt_trans.
Qed.

Lemma string_compare_refl (a : string) : String.compare a a = Eq.
Proof.
  induction a as [|x a IH]; simpl; [reflexivity|].
  now rewrite ascii_compare_refl.
Qed.

Lemma string_compare_lt_trans :
  forall a b c, String.compare a b = Lt -> String.compare b c = Lt ->
                String.compare a c = Lt.
Proof.
  induction a as [|x a IH]; intros [|y b] [|z c]; simpl;
    try discriminate; try reflexivity.
  destruct (Ascii.compare x y) eqn:Exy; try discriminate;
    destruct (Ascii.compare y z) eqn:Eyz; try discriminate; intros Hab Hbc.
  - apply Ascii.compare_eq_iff in Exy, Eyz. subst.
    rewrite ascii_compare_refl. now apply IH with b.
  - apply Ascii.compare_eq_iff in Exy. subst. now rewrite Eyz.
  - apply Ascii.compare_eq_iff in Eyz. subst. now rewrite Exy.
  - now rewrite (ascii_compare_lt_trans x y z).
Qed.

Lemma ltb_irrefl (a : string) : String.ltb a a = false.
Proof. unfold String.ltb. now rewrite string_compare_refl. Qed.

Lemma ltb_trans (a b c : string) :
  String.ltb a b = true -> String.ltb b c = true -> String.ltb a c = true.
Proof.
  unfold String.ltb.
  destruct (String.compare a b) eqn:Eab; try discriminate.
  destruct (String.compare b c) eqn:Ebc; try discriminate.
  now rewrite (string_compare_lt_trans a b c).
Qed.

Lemma ltb_asym (a b : string) : String.ltb a b = true -> String.ltb b a = false.
Proof.
  intros H. destruct (String.ltb b a) eqn:E; [|reflexivity].
  pose proof (ltb_trans a b a H E) as C. now rewrite ltb_irrefl in C.
Qed.

Lemma ltb_total (a b : string) :
  a <> b -> String.ltb a b = true \/ String.ltb b a = true.
Proof.
  intros Hne. unfold String.ltb. rewrite (String.compare_antisym b a).
  destruct (String.compare a b) eqn:E; simpl; auto.
  apply String.compare_eq_iff in E. contradiction.
Qed.

Section SortItems.

Context {A : Type}.

Lemma insert_item_perm (x : string * A) (l : list (string * A)) :
  Permutation (x :: l) (insert_item x l).
Proof.
  induction l as [|y l IH]; simpl; [apply Permutation_refl|].
  destruct (String.ltb (fst y) (fst x)); [|apply Permutation_refl].
  eapply perm_trans; [apply perm_swap|]. now apply perm_skip.
Qed.

Lemma sort_items_perm (l : list (string * A)) : Permutation l (sort_items l).
Proof.
  induction l as [|x l IH]; simpl; [apply perm_nil|].
  eapply perm_trans; [|apply insert_item_perm]. now apply perm_skip.
Qed.

Lemma insert_item_sorted (x : string * A) (l : list (string * A)) :
  ~ In (fst x) (map fst l) ->
  StronglySorted (@key_lt A) l -> StronglySorted (@key_lt A) (insert_item x l).
Proof.
  intros Hx Hs. induction Hs as [|y l Hs IH Hy]; simpl.
  - repeat constructor.
  - simpl in Hx.
    destruct (String.ltb (fst y) (fst x)) eqn:E.
    + constructor; [apply IH; tauto|].
      eapply Permutation_Forall; [apply insert_item_perm|].
      constructor; [exact E|exact Hy].
    + assert (Hlt : @key_lt A x y).
      { destruct (ltb_total (fst x) (fst y)) as [H|H]; [intuition congruence|exact H|].
        congruence. }
      constructor; [now constructor|].
      constructor; [exact Hlt|].
      eapply Forall_impl; [|exact Hy]. intros z Hz.
      unfold key_lt in *. now apply ltb_trans with (fst y).
Qed.

Lemma sort_items_sorted (l : list (string * A)) :
  NoDup (map fst l) -> StronglySorted (@key_lt A) (sort_items l).
Proof.
  induction l as [|x l IH]; simpl; intros Hn; [constructor|].
  inversion Hn as [|? ? Hx Hn']; subst.
  apply insert_item_sorted; [|now apply IH].
  intros Hin. apply Hx.
  eapply Permutation_in; [|exact Hin].
  apply Permutation_map, Permutation_sym, sort_items_perm.
Qed.

(** Two lists sorted by strictly increasing keys with the same elements
    are the same list. *)
Lemma sorted_perm_eq :
  forall l1 l2 : list (string * A),
    StronglySorted (@key_lt A) l1 -> StronglySorted (@key_lt A) l2 ->
    Permutation l1 l2 -> l1 = l2.
Proof.
  induction l1 as [|x l1 IH]; intros l2 H1 H2 Hp.
  - apply Permutation_nil in Hp. now subst.
  - destruct l2 as [|y l2]; [apply Permutation_sym, Permutation_nil in Hp; discriminate|].
    inversion H1 as [|? ? H1' Hx]; subst. inversion H2 as [|? ? H2' Hy]; subst.
    assert (x = y) as ->.
    { assert (Hin1 : In x (y :: l2)) by (eapply Permutation_in; [exact Hp|now left]).
      assert (Hin2 : In y (x :: l1))
        by (eapply Permutation_in; [apply Permutation_sym; exact Hp|now left]).
      destruct Hin1 as [->|Hin1]; [reflexivity|].
      destruct Hin2 as [->|Hin2]; [reflexivity|].
      rewrite Forall_forall in Hx, Hy.
      pose proof (Hx y Hin2) as Hxy. pose proof (Hy x Hin1) as Hyx.
      unfold key_lt in *. apply ltb_asym in Hxy. congruence. }
    f_equal. apply IH; try assumption. now apply Permutation_cons_inv in Hp.
Qed.

Lemma sort_items_of_permutation (l1 l2 : list (string * A)) :
  NoDup (map fst l1) -> Permutation l1 l2 -> sort_items l1 = sort_items l2.
Proof.
  intros Hn Hp. apply sorted_perm_eq.
  - now apply sort_items_sorted.
  - apply sort_items_sorted.
    eapply Permutation_NoDup; [|exact Hn]. now apply Permutation_map.
  - eapply perm_trans; [apply Permutation_sym, sort_items_perm|].
    eapply perm_trans; [exact Hp|apply sort_items_perm].
Qed.

End SortItems.

Lemma dumps_dict_of_permutation (items items' : pydict) :
  NoDup (map fst items) -> Permutation items items' ->
  dumps (JDict items) = dumps (JDict items').
Proof.
  intros Hn Hp. cbn [dumps].
  rewrite (sort_items_of_permutation
             (map (fun kv => (fst kv, dumps (snd kv))) items)
             (map (fun kv => (fst kv, dumps (snd kv))) items')).
  - reflexivity.
  - now rewrite map_map.
  - now apply Permutation_map.
Qed.

(** X19. The keys of the payload are sorted before it is serialised
    (line 29), so the header and the hash of a block do not depend on
    the order in which the keys of its payload, all different, were
    inserted. *)
Theorem hash_stable_under_key_order (b : Block) (items' : pydict) :
  NoDup (map fst (data b)) ->
  Permutation (data b) items' ->
  header_string (set_data b items') = header_string b
  /\ compute_hash (set_data b items') = compute_hash b.
Proof.
  intros Hn Hp.
  assert (H : header_string (set_data b items') = header_string b).
  { unfold header_string, set_data.
    cbn [index timestamp data previous_hash nonce].
    now rewrite (dumps_dict_of_permutation (data b) items' Hn Hp). }
  split; [exact H|]. unfold compute_hash. now rewrite H.
Qed.

Lemma hash_stable_under_key_order_witness :
  NoDup (map fst (data sample_second))
  /\ Permutation (data sample_second)
       [("amount", JFloat (mkFloat "10.0")); ("from", JStr "A"); ("to", JStr "B")]
  /\ compute_hash (set_data sample_second
       [("amount", JFloat (mkFloat "10.0")); ("from", JStr "A"); ("to", JStr "B")])
     = compute_hash sample_second.
Proof.
  assert (Hn : NoDup (map fst (data sample_second))).
  { simpl. repeat constructor; simpl; intuition discriminate. }
  assert (Hp : Permutation (data sample_second)
                 [("amount", JFloat (mkFloat "10.0")); ("from", JStr "A"); ("to", JStr "B")]).
  { simpl. unfold sample_payload.
    eapply perm_trans; [apply perm_skip, perm_swap|]. apply perm_swap. }
  split; [exact Hn|]. split; [exact Hp|].
  exact (proj2 (hash_stable_under_key_order sample_second _ Hn Hp)).
Defined.

(** ** The constructor *)

(** X20. When the constructor returns, the chain has the difficulty it
    was given and exactly one block: index 0, the clock reading as
    timestamp, the genesis payload, the 64 zeros as previous hash, a
    stored hash that is the digest of its header and begins with the
    zeros of the difficulty, and the least nonce from 0 for which that
    is so. *)
Theorem Blockchain_init_builds_mined_genesis
    (fuel : nat) (now : pyfloat) (d : Z) (bc : Blockchain) :
  Blockchain_init fuel now d = Returned bc ->
  difficulty bc = d
  /\ exists g,
       chain bc = [g]
       /\ index g = 0 /\ timestamp g = now /\ data g = genesis_data
       /\ previous_hash g = str_repeat "0" 64
       /\ hash g = sha256_hex (header_string g)
       /\ startswith (hash g) (str_repeat "0" d) = true
       /\ 0 <= nonce g
       /\ forall m, 0 <= m < nonce g ->
            startswith (sha256_hex (header_string (set_nonce g m)))
              (str_repeat "0" d) = false.
Proof.
  intros H. apply Blockchain_init_returned in H as (g & -> & Hm).
  split; [reflexivity|]. exists g. split; [reflexivity|].
  pose proof (mine_returned_nonneg _ _ _ _ Hm) as Hd.
  rewrite mine_nonneg in Hm by assumption.
  apply mine_loop_returned in Hm as (Hh & Hs & Hc & Hn & _ & Hmin).
  pose proof Hc as (Hi & Ht & Hda & Hp).
  split; [exact Hi|]. split; [exact Ht|]. split; [exact Hda|]. split; [exact Hp|].
  split; [exact Hh|]. split; [exact Hs|]. split; [exact Hn|].
  intros m Hm. specialize (Hmin m Hm).
  assert (He : compute_hash (set_nonce g m)
               = compute_hash (set_nonce (Block_init now 0 genesis_data zeros64) m)).
  { apply compute_hash_same_content; [|reflexivity].
    unfold same_content. simpl. now rewrite Hi, Ht, Hda, Hp. }
  unfold compute_hash in He. rewrite He. exact Hmin.
Qed.

Lemma Blockchain_init_builds_mined_genesis_witness :
  Blockchain_init 3 sample_time 1 = Returned (self sample_world0)
  /\ difficulty (self sample_world0) = 1.
Proof.
  assert (H : Blockchain_init 3 sample_time 1 = Returned (self sample_world0))
    by (vm_compute; reflexivity).
  split; [exact H|].
  exact (proj1 (Blockchain_init_builds_mined_genesis 3 sample_time 1 _ H)).
Defined.
